(** * bamboo: the URI router and the data-binding engine

    A shallow embedding of [bamboo/router.py] (class [Router]) together with
    the parts of [bamboo.location] and [bamboo.api] it and the test-suite rely
    on, and the properties of the design document stated over them. *)

From Stdlib Require Import Ascii String ZArith QArith.
From stdpp Require Import base decidable option list strings gmap.

Local Open Scope string_scope.
Local Open Scope list_scope.

(** ** Python values used by the router *)

Module Py.

(** [s[1:]] on a [str]: drops the first character, and is [""] on [""]. *)
Definition slice_from_1 (s : string) : string :=
  match s with
  | EmptyString => EmptyString
  | String _ rest => rest
  end.

(** [s.split(sep)] for a one-character separator.  The result is never
    empty: [""] splits into [[""]]. *)
Fixpoint split (sep : ascii) (s : string) : list string :=
  match s with
  | EmptyString => [EmptyString]
  | String c rest =>
      if Ascii.eqb c sep then EmptyString :: split sep rest
      else match split sep rest with
           | hd :: tl => String c hd :: tl
           | [] => [String c EmptyString]
           end
  end.

(** [sep.join(parts)] *)
Fixpoint join (sep : ascii) (parts : list string) : string :=
  match parts with
  | [] => EmptyString
  | [s] => s
  | s :: rest => s +:+ String sep (join sep rest)
  end.

(** [c in s] for a character [c]. *)
Fixpoint occurs (c : ascii) (s : string) : bool :=
  match s with
  | EmptyString => false
  | String c' s' => Ascii.eqb c' c || occurs c s'
  end.

(** A [dict] keeps its items in insertion order; the keys are unique. *)
Definition dict (K V : Type) : Type := list (K * V).

Section Dict.
Context {K V : Type} `{EqDecision K}.

(** [d.get(k)] *)
Fixpoint get (k : K) (d : dict K V) : option V :=
  match d with
  | [] => None
  | (k', v) :: d' => if decide (k = k') then Some v else get k d'
  end.

(** [d[k] = v]: an existing key keeps its place and takes the new value,
    a new key goes to the end. *)
Fixpoint set (k : K) (v : V) (d : dict K V) : dict K V :=
  match d with
  | [] => [(k, v)]
  | (k', v') :: d' =>
      if decide (k = k') then (k', v) :: d' else (k', v') :: set k v d'
  end.

(** [d.keys()] and [d.items()] *)
Definition keys (d : dict K V) : list K := d.*1.
Definition items (d : dict K V) : list (K * V) := d.
End Dict.

(** Outcome of a call that returns nothing: it returns or it raises. *)
Inductive outcome (E : Type) : Type :=
| Returns
| Raises (e : E).
Arguments Returns {E}.
Arguments Raises {E} e.

(** Outcome of a call that returns a value: the value or the exception. *)
Inductive completion (E A : Type) : Type :=
| Returned (value : A)
| Raised (e : E).
Arguments Returned {E A} value.
Arguments Raised {E A} e.

(** [hash(x)]: it returns for a hashable object and raises [TypeError]
    for an unhashable one, such as an instance of a [@dataclass] class,
    which gets [__eq__] and with it [__hash__ = None].  A [dict] hashes
    the key of every lookup and of every assignment. *)
Class Hashable (A : Type) : Type := hashable : A → bool.

End Py.

(** ** bamboo.location *)

Module Location.

(** Modelled from the spec: the base class [FlexibleLocation] of
    [bamboo.location], a module absent from the source tree.  A flexible
    locator is a predicate [is_valid] over one path segment (section 4.2);
    locators are compared as Python objects, which the decidable equality
    of the carrier stands for. *)
Class FlexibleLocation (F : Type) : Type := {
  is_valid : F → string → bool;
  flexible_eq_dec :: EqDecision F
}.

(** Modelled from the spec: one segment of a Path Pattern (section 3),
    a literal [str] or a [FlexibleLocation] object; the type belongs to
    [bamboo.location]. *)
Inductive Location_t (F : Type) : Type :=
| Literal (s : string)
| Flexible (f : F).
Arguments Literal {F} s.
Arguments Flexible {F} f.

(** Modelled from the spec: [Uri_t] of [bamboo.location], the ordered
    sequence of the segments of a pattern (a tuple). *)
Definition Uri_t (F : Type) : Type := list (Location_t F).

Section Uri.
Context {F : Type} `{FlexibleLocation F}.

#[export] Instance Location_eq_dec : EqDecision (Location_t F).
Proof. solve_decision. Defined.

Definition is_flexible (loc : Location_t F) : bool :=
  match loc with
  | Literal _ => false
  | Flexible _ => true
  end.

(** Modelled from the spec: [is_flexible_uri] of [bamboo.location], a
    module absent from the source tree: a pattern is flexible when it
    contains any flexible segment (section 4.1). *)
Definition is_flexible_uri (uri : Uri_t F) : bool :=
  existsb is_flexible uri.

(** Modelled from the spec: the test of [is_duplicated_uri] at one
    position: two segments collide when the literals are equal or at least
    one side is a flexible locator (section 4.1). *)
Definition collide (loc_1 loc_2 : Location_t F) : bool :=
  match loc_1, loc_2 with
  | Literal s1, Literal s2 => bool_decide (s1 = s2)
  | _, _ => true
  end.

(** Modelled from the spec: [is_duplicated_uri] of [bamboo.location], a
    module absent from the source tree: two patterns of equal segment
    count are ambiguous if, for every segment position, either the
    literals are equal or at least one side is a flexible locator
    (section 4.1). *)
Definition is_duplicated_uri (uri_1 uri_2 : Uri_t F) : bool :=
  bool_decide (length uri_1 = length uri_2)
  && forallb (λ p, collide p.1 p.2) (zip uri_1 uri_2).

(** [loc_req == loc_flex] where [loc_req] is a [str]: a string is equal
    to an equal string and to nothing else; a locator object does not
    compare equal to a string. *)
Definition str_eq (loc_req : string) (loc_flex : Location_t F) : bool :=
  match loc_flex with
  | Literal s => bool_decide (loc_req = s)
  | Flexible _ => false
  end.
End Uri.

(** Modelled from the spec: the two locators every deployment has
    (section 4.2), under the names [bamboo/__init__.py] exports:
    [AnyStringLocation] accepts any non-empty segment,
    [AsciiDigitLocation N] accepts exactly [N] ASCII digits. *)
Inductive StdLocation : Type :=
| AnyStringLocation
| AsciiDigitLocation (digits : nat).

(** Modelled from the spec: the ASCII digits, ["0"] to ["9"]. *)
Definition is_ascii_digit (c : ascii) : bool :=
  let n := nat_of_ascii c in (48 <=? n)%nat && (n <=? 57)%nat.

(** Modelled from the spec: [is_valid] of the two locators
    (section 4.2). *)
Definition std_is_valid (loc : StdLocation) (segment : string) : bool :=
  match loc with
  | AnyStringLocation => negb (bool_decide (segment = ""))
  | AsciiDigitLocation digits =>
      bool_decide (String.length segment = digits)
      && forallb is_ascii_digit (list_ascii_of_string segment)
  end.

#[export] Instance StdLocation_eq_dec : EqDecision StdLocation.
Proof. solve_decision. Defined.

#[export] Instance StdLocation_flexible : FlexibleLocation StdLocation :=
  {| is_valid := std_is_valid |}.

End Location.

(** ** bamboo.router *)

Module Router.
Import Py Location.

Inductive exn : Type :=
| DuplicatedUriRegisteredError
| TypeError.

Section Router.
Context {F : Type} `{FlexibleLocation F} `{Hashable F}.
(** [Type[Endpoint]]: a handler is a class object, compared by identity.
    A class object is truthy, so [if endpoint:] asks whether the lookup
    found one. *)
Context {Endpoint : Type} `{EqDecision Endpoint}.

Definition Uri2Endpoints_t : Type := dict (Uri_t F) Endpoint.

Record Router : Type := {
  uri2endpoint : Uri2Endpoints_t;
  uris_flexible : list (Uri_t F)
}.

(** [Router.__init__] *)
Definition init : Router :=
  {| uri2endpoint := []; uris_flexible := [] |}.

(** [hash(uri)] of a tuple hashes its items: a [str] is hashable, a
    locator is as its class makes it. *)
Definition hashable_uri (uri : Uri_t F) : bool :=
  forallb (λ loc, match loc with
                  | Literal _ => true
                  | Flexible f => hashable f
                  end) uri.

(** [Router.register]: the outcome and the router after the call.  The
    pattern is appended to [uris_flexible] before the assignment to the
    table, which hashes the pattern: when that raises [TypeError] the
    pattern stays in the list. *)
Definition register (self : Router) (uri : Uri_t F) (endpoint : Endpoint)
  : outcome exn * Router :=
  if existsb (λ uri_registered, is_duplicated_uri uri_registered uri)
             (keys (uri2endpoint self))
  then (Raises DuplicatedUriRegisteredError, self)
  else
    let flexibles :=
      if is_flexible_uri uri then uris_flexible self ++ [uri]
      else uris_flexible self in
    if hashable_uri uri
    then (Returns,
          {| uri2endpoint := set uri endpoint (uri2endpoint self);
             uris_flexible := flexibles |})
    else (Raises TypeError,
          {| uri2endpoint := uri2endpoint self;
             uris_flexible := flexibles |}).

(** The inner loop of [Router.validate] over [zip(uri, flexible)]:
    [true] when the loop ends without [break], so that its [else] branch
    runs.  A position with equal values continues; a flexible locator
    that rejects the segment breaks; a literal that differs from the
    segment takes neither [if] and the loop goes on. *)
Fixpoint judge (locations : list (string * Location_t F)) : bool :=
  match locations with
  | [] => true
  | (loc_req, loc_flex) :: rest =>
      if str_eq loc_req loc_flex then judge rest
      else match loc_flex with
           | Flexible f => if is_valid f loc_req then judge rest else false
           | Literal _ => judge rest
           end
  end.

(** The outer loop of [Router.validate] over [self.uris_flexible].  The
    lookup of the pattern the loop stops at hashes it, and raises
    [TypeError] when that pattern is unhashable. *)
Fixpoint scan (table : Uri2Endpoints_t) (uri : list string)
  (flexibles : list (Uri_t F)) : completion exn (option Endpoint) :=
  match flexibles with
  | [] => Returned None
  | flexible :: rest =>
      if negb (bool_decide (length flexible = length uri))
      then scan table uri rest
      else if judge (zip uri flexible)
           then if hashable_uri flexible
                then Returned (get flexible table)
                else Raised TypeError
      else scan table uri rest
  end.

(** Whether the scan stops at [flexible]: the segment counts agree and
    the inner loop reaches its [else] branch. *)
Definition stops_at (uri : list string) (flexible : Uri_t F) : bool :=
  bool_decide (length flexible = length uri) && judge (zip uri flexible).

(** The pattern the scan stops at, if any: the first of the list. *)
Definition candidate (uri : list string) (flexibles : list (Uri_t F))
  : option (Uri_t F) :=
  List.find (stops_at uri) flexibles.

(** [tuple(uri[1:].split("/"))] *)
Definition segments (uri : string) : list string :=
  split "/" (slice_from_1 uri).

(** A tuple of strings as a key of the table. *)
Definition as_key (uri : list string) : Uri_t F := Literal <$> uri.

(** [Router.validate]: the first lookup is of a tuple of [str], which is
    hashable. *)
Definition validate (self : Router) (uri : string)
  : completion exn (option Endpoint) :=
  let uri := segments uri in
  match get (as_key uri) (uri2endpoint self) with
  | Some endpoint => Returned (Some endpoint)
  | None => scan (uri2endpoint self) uri (uris_flexible self)
  end.

(** [Router.search_uris] *)
Definition search_uris (self : Router) (endpoint : Endpoint)
  : list (Uri_t F) :=
  (filter (λ item, item.2 = endpoint) (items (uri2endpoint self))).*1.

(** A call of one of the three methods, and the router it leaves.  Only
    [register] assigns to the attributes of [self]. *)
Inductive call : Type :=
| Register (uri : Uri_t F) (endpoint : Endpoint)
| Validate (uri : string)
| SearchUris (endpoint : Endpoint).

Definition after (self : Router) (c : call) : Router :=
  match c with
  | Register uri endpoint => (register self uri endpoint).2
  | Validate _ => self
  | SearchUris _ => self
  end.

Inductive reachable : Router → Prop :=
| reachable_init : reachable init
| reachable_call self c : reachable self → reachable (after self c).

(** Whether the call is a [register] that raises [TypeError]. *)
Definition raises_TypeError (self : Router) (c : call) : bool :=
  match c with
  | Register uri endpoint =>
      match (register self uri endpoint).1 with
      | Raises TypeError => true
      | _ => false
      end
  | _ => false
  end.

(** The routers reached from [Router()] by calls of which no [register]
    raised [TypeError]. *)
Inductive reachable_unbroken : Router → Prop :=
| unbroken_init : reachable_unbroken init
| unbroken_call self c :
    reachable_unbroken self → raises_TypeError self c = false →
    reachable_unbroken (after self c).

End Router.

Arguments Router F Endpoint : clear implicits.

(** Modelled from the spec: the standard locators of [bamboo.location]
    are used in the keys of the table (the patterns of
    [test/app/test_routing.py] are registered with them), hence hashable. *)
#[export] Instance StdLocation_hashable : Hashable StdLocation := λ _, true.

(** A locator class as a client of the library may define one,
    [@dataclass class VersionLocation(FlexibleLocation)] with an [is_valid]
    that accepts the segments beginning with ["v"]: a dataclass gets
    [__eq__] and with it [__hash__ = None], so its instances are
    unhashable. *)
Inductive DataclassLocation : Type :=
| VersionLocation.

#[export] Instance DataclassLocation_eq_dec : EqDecision DataclassLocation.
Proof. solve_decision. Defined.

#[export] Instance DataclassLocation_flexible
  : FlexibleLocation DataclassLocation :=
  {| is_valid := λ _ segment,
       match segment with
       | String "v" _ => true
       | _ => false
       end |}.

#[export] Instance DataclassLocation_hashable : Hashable DataclassLocation :=
  λ _, false.

(** The handlers of the examples: [MockEndpoint] is the endpoint class of
    [test/app/test_routing.py]. *)
Inductive Handler : Type :=
| MockEndpoint
| OtherEndpoint.

#[export] Instance Handler_eq_dec : EqDecision Handler.
Proof. solve_decision. Defined.

(** The router after registering the given routes in sequence. *)
Definition registered (routes : list (Uri_t StdLocation * Handler))
  : Router StdLocation Handler :=
  foldl (λ self route, after self (Register route.1 route.2)) init routes.

(** *** [test/app/test_routing.py]

    The test names the two locators [StringLocation] and [NumLocation];
    they are [AnyStringLocation] and [AsciiDigitLocation] here. *)

Definition test_hoge_any : Uri_t StdLocation :=
  [Literal "test"; Literal "hoge"; Flexible AnyStringLocation].
Definition test_hoge_image : Uri_t StdLocation :=
  [Literal "test"; Literal "hoge"; Literal "image"].

Definition PATTERNS_1 : list (Uri_t StdLocation) :=
  [test_hoge_any; test_hoge_image].
Definition PATTERNS_2 : list (Uri_t StdLocation) :=
  [[Flexible AnyStringLocation; Flexible (AsciiDigitLocation 4)];
   [Literal "hoge"; Literal "hoge"]].
Definition PATTERNS_3 : list (Uri_t StdLocation) :=
  [[Flexible AnyStringLocation; Literal "test"; Flexible AnyStringLocation];
   [Literal "hoge"; Flexible AnyStringLocation; Literal "image"]].

(** [TestRouting._test_duplicated_uris]: [true] when registering the
    patterns in sequence raises [DuplicatedUriRegisteredError]; another
    exception is not what [assertRaises] expects. *)
Fixpoint raises_duplicated (router : Router StdLocation Handler)
  (patterns : list (Uri_t StdLocation)) : bool :=
  match patterns with
  | [] => false
  | uri :: rest =>
      match register router uri MockEndpoint with
      | (Raises DuplicatedUriRegisteredError, _) => true
      | (Raises TypeError, _) => false
      | (Returns, router') => raises_duplicated router' rest
      end
  end.

(** [TestRouting.test_duplicated_uris] *)
Definition test_duplicated_uris : bool :=
  raises_duplicated init PATTERNS_1
  && raises_duplicated init PATTERNS_2
  && raises_duplicated init PATTERNS_3.

(** Routers with one flexible route, and with a literal route next to it. *)
Definition router_hoge : Router StdLocation Handler :=
  registered [(test_hoge_any, MockEndpoint)].
Definition router_test : Router StdLocation Handler :=
  registered [([Literal "test"; Flexible AnyStringLocation], MockEndpoint)].
Definition router_x : Router StdLocation Handler :=
  registered [([Literal "x"; Flexible AnyStringLocation], MockEndpoint)].
Definition router_users : Router StdLocation Handler :=
  registered [([Literal "users"; Flexible (AsciiDigitLocation 4)],
               MockEndpoint);
              ([Literal "about"], OtherEndpoint)].

(** The router left by a [register] of an unhashable pattern. *)
Definition router_version : Router DataclassLocation Handler :=
  after init (Register [Literal "a"; Flexible VersionLocation] MockEndpoint).
End Router.

(** ** bamboo.api *)

Module Api.

Local Set Warnings "-register-all".

(** Modelled from the spec: the Generic Value Tree of section 3, the decoded
    form of a raw payload: an object is a mapping of strings to values, an
    array an ordered sequence, a scalar a string, a number, a boolean or
    null.  [bamboo.api] is absent from the source tree. *)
Inductive GenericValue : Type :=
| GNull
| GBool (b : bool)
| GInt (n : Z)
| GFloat (x : Q)
| GString (s : string)
| GArray (items : list GenericValue)
| GObject (members : gmap string GenericValue).

(** Modelled from the spec: the runtime kind of a value, as a type
    mismatch reports it (section 4.4, step 3). *)
Inductive value_kind : Type :=
| KNull | KBoolean | KInteger | KFloat | KString | KArray | KObject.

(** Modelled from the spec: the kind of each value of the tree. *)
Definition kind_of (v : GenericValue) : value_kind :=
  match v with
  | GNull => KNull
  | GBool _ => KBoolean
  | GInt _ => KInteger
  | GFloat _ => KFloat
  | GString _ => KString
  | GArray _ => KArray
  | GObject _ => KObject
  end.

(** Modelled from the spec: the Bound Object of section 3: a value of the
    target shape, with nested values for nested fields and ordered
    sequences for list fields; [BNone] is the value of an absent optional
    field. *)
Inductive BoundValue : Type :=
| BNone
| BBool (b : bool)
| BInt (n : Z)
| BFloat (x : Q)
| BStr (s : string)
| BList (items : list BoundValue)
| BObject (fields : gmap string BoundValue).

(** Modelled from the spec: the scalar types of section 4.3. *)
Inductive scalar_type : Type :=
| TString | TInteger | TFloat | TBoolean.

(** Modelled from the spec: the Schema Descriptor of sections 3 and 4.3: an
    ordered sequence of fields, each with its name, declared kind,
    [required] flag and optional default. *)
Inductive declared_kind : Type :=
| Scalar (t : scalar_type)
| Nested (d : descriptor)
| ListOfNested (d : descriptor)
| OptionalOf (k : declared_kind)
with descriptor : Type :=
| NoField
| Field (name : string) (kind : declared_kind) (required : bool)
    (default : option BoundValue) (rest : descriptor).

(** Modelled from the spec: the structured failure of sections 6 and 7. *)
Inductive failure_kind : Type :=
| MalformedInput | MissingField | TypeMismatch | NestedFailure.

(** Modelled from the spec: a failure carries its kind, the field path
    and, for a type mismatch, the expected and the actual kind
    (section 6). *)
Record ValidationFailure : Type := {
  failure : failure_kind;
  field_path : list string;
  expected_actual : option (value_kind * value_kind)
}.

(** Modelled from the spec: what [bind] returns, a bound value or a
    failure (section 4.4). *)
Inductive result (A : Type) : Type :=
| Bound (a : A)
| Failed (f : ValidationFailure).
Arguments Bound {A} a.
Arguments Failed {A} f.

(** Sequencing stops at the first failure (section 4.4, step 5). *)
#[export] Instance result_ret : MRet result := λ A a, Bound a.
#[export] Instance result_bind : MBind result := λ A B k m,
  match m with
  | Bound a => k a
  | Failed f => Failed f
  end.
#[export] Instance result_fmap : FMap result := λ A B g m,
  match m with
  | Bound a => Bound (g a)
  | Failed f => Failed f
  end.

(** Modelled from the spec: malformed input, the failure of steps 1 and 2
    of [bind] (section 4.4). *)
Definition malformed_input : ValidationFailure :=
  {| failure := MalformedInput; field_path := []; expected_actual := None |}.

(** Modelled from the spec: a required field absent from the input, with
    the name of the field. *)
Definition missing_field (name : string) : ValidationFailure :=
  {| failure := MissingField; field_path := [name];
     expected_actual := None |}.

(** Modelled from the spec: a present value of the wrong kind, with the
    name of the field and both kinds. *)
Definition type_mismatch (name : string) (expected actual : value_kind)
  : ValidationFailure :=
  {| failure := TypeMismatch; field_path := [name];
     expected_actual := Some (expected, actual) |}.

(** Modelled from the spec: a failure of a nested object or list element,
    re-surfaced with the outer field prepended to the path (section 7). *)
Definition nested_failure {A} (name : string) (r : result A) : result A :=
  match r with
  | Bound a => Bound a
  | Failed f =>
      Failed {| failure := NestedFailure;
                field_path := name :: field_path f;
                expected_actual := expected_actual f |}
  end.

(** Modelled from the spec: the kind a scalar field expects. *)
Definition kind_of_scalar (t : scalar_type) : value_kind :=
  match t with
  | TString => KString
  | TInteger => KInteger
  | TFloat => KFloat
  | TBoolean => KBoolean
  end.

Section Engine.
(** The policy on numeric widening: [false] is the strict default,
    [true] lets an integer bind to a float field. *)
Variable widen : bool.

(** Modelled from the spec: the leaf check of a present scalar field
    (section 4.4, step 3): a direct check of the runtime kind; null is a
    mismatch like any other kind. *)
Definition check_scalar (name : string) (t : scalar_type)
  (v : GenericValue) : result BoundValue :=
  match t, v with
  | TString, GString s => Bound (BStr s)
  | TInteger, GInt n => Bound (BInt n)
  | TFloat, GFloat x => Bound (BFloat x)
  | TFloat, GInt n =>
      if widen then Bound (BFloat (inject_Z n))
      else Failed (type_mismatch name KFloat KInteger)
  | TBoolean, GBool b => Bound (BBool b)
  | _, _ => Failed (type_mismatch name (kind_of_scalar t) (kind_of v))
  end.

(** Modelled from the spec: step 2 of [bind], over the binder of the
    fields of a shape: the value must be an object, anything else is
    malformed input. *)
Definition bind_object
  (fields : gmap string GenericValue → result (gmap string BoundValue))
  (v : GenericValue) : result BoundValue :=
  match v with
  | GObject members => BObject <$> fields members
  | _ => Failed malformed_input
  end.

(** Modelled from the spec: the value a field takes when the input does
    not give one: its declared default, and the absent value where it
    declares none. *)
Definition default_value (default : option BoundValue) : BoundValue :=
  match default with
  | Some v => v
  | None => BNone
  end.

(** Modelled from the spec: steps 3 to 5 of [bind] (section 4.4) with the
    classification of section 4.3.  [bind_kind] binds a present value of
    a field, [bind_fields] goes through the fields in descriptor order
    and stops at the first failure; keys of the input that no field
    names are never looked at. *)
Fixpoint bind_kind (name : string) (k : declared_kind) (v : GenericValue)
  : result BoundValue :=
  match k with
  | Scalar t => check_scalar name t v
  | Nested d => nested_failure name (bind_object (bind_fields d) v)
  | ListOfNested d =>
      match v with
      | GArray items =>
          BList <$>
            mapM (λ item,
                    nested_failure name (bind_object (bind_fields d) item))
                 items
      | _ => Failed (type_mismatch name KArray (kind_of v))
      end
  | OptionalOf k' => bind_kind name k' v
  end
with bind_fields (d : descriptor) (members : gmap string GenericValue)
  : result (gmap string BoundValue) :=
  match d with
  | NoField => Bound ∅
  | Field name kind required default rest =>
      let bound :=
        match members !! name with
        | None =>
            if required then Failed (missing_field name)
            else Bound (default_value default)
        | Some v =>
            match kind, v with
            | OptionalOf _, GNull => Bound (default_value default)
            | _, _ => bind_kind name kind v
            end
        end in
      x ← bound;
      others ← bind_fields rest members;
      Bound (<[name := x]> others)
  end.

(** Modelled from the spec: steps 2 to 5 of [bind] on a decoded tree. *)
Definition bind_value (d : descriptor) (v : GenericValue)
  : result BoundValue :=
  bind_object (bind_fields d) v.

(** The grammar of the wire format (JSON in the reference encoding) is
    the host's: [decode] is [None] on malformed bytes. *)
Variable decode : string → option GenericValue.

(** Modelled from the spec: [bind(raw_bytes, descriptor)] of section
    4.4. *)
Definition bind (raw : string) (d : descriptor) : result BoundValue :=
  match decode raw with
  | None => Failed malformed_input
  | Some v => bind_value d v
  end.
End Engine.

(** The names a descriptor declares, in order. *)
Fixpoint names (d : descriptor) : list string :=
  match d with
  | NoField => []
  | Field name _ _ _ rest => name :: names rest
  end.

(** The descriptor without the first field called [name]. *)
Fixpoint without (name : string) (d : descriptor) : descriptor :=
  match d with
  | NoField => NoField
  | Field name' kind required default rest =>
      if decide (name = name') then rest
      else Field name' kind required default (without name rest)
  end.

(** The first field called [name] is of optional kind, not required, and
    declares the default [v] (the invariant of section 3 on optional
    fields). *)
Fixpoint optional_with_default (name : string) (v : BoundValue)
  (d : descriptor) : Prop :=
  match d with
  | NoField => False
  | Field name' kind required default rest =>
      if decide (name = name') then
        (∃ k, kind = OptionalOf k) ∧ required = false ∧ default = Some v
      else optional_with_default name v rest
  end.

(** *** The shapes and payloads of [test/api/test_json_api_data.py] *)

(** [class TestUnionData]: [name: str], [age: Optional[int] = None]. *)
Definition TestUnionData : descriptor :=
  Field "name" (Scalar TString) true None
    (Field "age" (OptionalOf (Scalar TInteger)) false (Some BNone) NoField).

(** [class TestInnerData]: [name: str], [age: int], [email: str]. *)
Definition TestInnerData : descriptor :=
  Field "name" (Scalar TString) true None
    (Field "age" (Scalar TInteger) true None
       (Field "email" (Scalar TString) true None NoField)).

Definition quote : string := String (ascii_of_nat 34) EmptyString.

(** [json.dumps({"name": "hogehoge", "age": None})] *)
Definition data_union : string :=
  "{" +:+ quote +:+ "name" +:+ quote +:+ ": " +:+ quote +:+ "hogehoge"
      +:+ quote +:+ ", " +:+ quote +:+ "age" +:+ quote +:+ ": null}".

(** [json.dumps({"name": "hogehoge", "Age": 30})] *)
Definition data_key_not_included : string :=
  "{" +:+ quote +:+ "name" +:+ quote +:+ ": " +:+ quote +:+ "hogehoge"
      +:+ quote +:+ ", " +:+ quote +:+ "Age" +:+ quote +:+ ": 30}".

(** [json.dumps({"name": "hogehoge"})] *)
Definition data_name_only : string :=
  "{" +:+ quote +:+ "name" +:+ quote +:+ ": " +:+ quote +:+ "hogehoge"
      +:+ quote +:+ "}".

(** What the JSON grammar makes of these payloads, and of nothing else. *)
Definition decode_fixtures (raw : string) : option GenericValue :=
  if decide (raw = data_union) then
    Some (GObject (<["name" := GString "hogehoge"]>
                     (<["age" := GNull]> ∅)))
  else if decide (raw = data_key_not_included) then
    Some (GObject (<["Age" := GInt 30]>
                     (<["name" := GString "hogehoge"]> ∅)))
  else if decide (raw = data_name_only) then
    Some (GObject (<["name" := GString "hogehoge"]> ∅))
  else None.

(** [TestJsonApiData.test_union_data], over the constructor under test:
    [data.name == "hogehoge"] and [data.age == None]. *)
Definition test_union_data
  (JsonApiData : descriptor → string → result BoundValue) : bool :=
  match JsonApiData TestUnionData data_union with
  | Bound (BObject fields) =>
      match fields !! "name", fields !! "age" with
      | Some (BStr name), Some BNone => bool_decide (name = "hogehoge")
      | _, _ => false
      end
  | _ => false
  end.

(** [TestJsonApiData.test_key_not_included], over the constructor under
    test: [assertRaises(ValidationFailedError)]. *)
Definition test_key_not_included
  (JsonApiData : descriptor → string → result BoundValue) : bool :=
  match JsonApiData TestUnionData data_key_not_included with
  | Failed _ => true
  | Bound _ => false
  end.

End Api.

(** ** bamboo.sticky.http *)

Module Http.
Import Py.

(** [sep.join(parts)] for a separator of any length. *)
Fixpoint str_join (sep : string) (parts : list string) : string :=
  match parts with
  | [] => EmptyString
  | [s] => s
  | s :: rest => s +:+ sep +:+ str_join sep rest
  end.

(** [s.count(c)] for a character [c]. *)
Fixpoint count (c : ascii) (s : string) : nat :=
  match s with
  | EmptyString => 0
  | String c' s' => (if Ascii.eqb c' c then 1 else 0) + count c s'
  end.

Module AuthSchemeConfig.

(** [AuthSchemeConfig._validate_auth_header] *)
Definition _validate_auth_header (value scheme : string) : option string :=
  match split " " value with
  | [_scheme; credentials] =>
      if negb (bool_decide (_scheme = scheme)) then None
      else Some credentials
  | _ => None
  end.

(** What the callback that [decorate_wsgi_basic] builds does with the
    value of the [Authorization] header: it raises [err], lets an
    exception of the decoding through, or calls the decorated callback
    with the user and the password. *)
Inductive basic_outcome : Type :=
| RaisesErr
| RaisesInDecoding
| Calls (user_id pw : string).

Section Basic.
(** [AuthSchemes.basic], a constant of [bamboo.base]. *)
Variable basic : string.
(** [decode2binary(credentials).decode()], of [bamboo.util.convert]:
    [None] where it raises. *)
Variable decode2binary_decode : string → option string.

(** [AuthSchemeConfig.decorate_wsgi_basic], the body of [_callback] from
    the header value on ([decorate_asgi_basic] has the same body). *)
Definition decorate_wsgi_basic (val : string) : basic_outcome :=
  match _validate_auth_header val basic with
  | None => RaisesErr
  | Some credentials =>
      match decode2binary_decode credentials with
      | None => RaisesInDecoding
      | Some decoded =>
          match split ":" decoded with
          | [user_id; pw] => Calls user_id pw
          | _ => RaisesErr
          end
      end
  end.
End Basic.

End AuthSchemeConfig.

(** [class ClientInfo] *)
Record ClientInfo : Type := {
  ip : string;
  port : option Z
}.

(** [_RestrictedClient_t]: the ports registered for each address. *)
Abbreviation _RestrictedClient_t := (gmap string (gset (option Z))).

Module RestrictedClientsConfig.

Inductive exn : Type :=
| ValueError.

(** What the callback that [decorate_wsgi] builds does for a client. *)
Inductive verdict : Type :=
| RaisesErr
| CallsCallback.

Section Clients.
(** [is_valid_ipv4] of [bamboo.util.ip]. *)
Variable is_valid_ipv4 : string → bool.

(** [RestrictedClientsConfig.set], the loop over the clients: the outcome
    and the registry it leaves.  The registry is updated client by client,
    before the next client is looked at. *)
Fixpoint set (registered : _RestrictedClient_t) (clients : list ClientInfo)
  : outcome exn * _RestrictedClient_t :=
  match clients with
  | [] => (Returns, registered)
  | client :: clients =>
      if negb (is_valid_ipv4 (ip client)) then (Raises ValueError, registered)
      else
        let client :=
          if bool_decide (ip client = "localhost")
          then {| ip := "127.0.0.1"; port := port client |}
          else client in
        let registered :=
          match registered !! ip client with
          | None => <[ip client := ∅]> registered
          | Some _ => registered
          end in
        let registered :=
          alter (λ ports, ports ∪ {[port client]}) (ip client) registered in
        set registered clients
  end.
End Clients.

(** [RestrictedClientsConfig.decorate_wsgi], the check of [_callback] on
    the address of the client ([decorate_asgi] has the same check). *)
Definition _callback (acceptables : _RestrictedClient_t)
  (client : ClientInfo) : verdict :=
  match acceptables !! ip client with
  | None => RaisesErr
  | Some ports =>
      if negb (bool_decide (None ∈ ports)
               || bool_decide (port client ∈ ports))
      then RaisesErr
      else CallsCallback
  end.

(** The address a client is registered under. *)
Definition registered_ip (client : ClientInfo) : string :=
  if bool_decide (ip client = "localhost") then "127.0.0.1" else ip client.

(** An address check for the examples: the loopback names and one host. *)
Definition is_known_ipv4 (address : string) : bool :=
  bool_decide (address ∈ ["localhost"; "127.0.0.1"; "192.168.0.10"]).

End RestrictedClientsConfig.

(** [_CORS_SAFELISTED_REQUEST_HEADERS] *)
Definition _CORS_SAFELISTED_REQUEST_HEADERS : gset string :=
  {[ "Accept"; "Accept-Language"; "Content-Language"; "Content-Type" ]}.

(** [_handle_cors_preflight], the value of [accepted_headers] in [handle]
    for the set [allow_headers] the caller gave.  [re.split(",|, ", s)]
    splits at every comma: the alternatives of a pattern are tried from
    left to right, and the first one matches wherever the second does. *)
Definition accepted_headers (allow_headers : gset string)
  (req_headers : string) : string :=
  str_join ", "
    (filter (λ header,
               header ∈ allow_headers ∪ _CORS_SAFELISTED_REQUEST_HEADERS)
            (split "," req_headers)).

End Http.

(** * Properties *)

(** ** Python values *)

Module PyFacts.
Import Py.

Section Dict.
Context {K V : Type} `{EqDecision K}.
Implicit Types (k : K) (v : V) (d : dict K V).

Lemma get_set_eq k v d : get k (set k v d) = Some v.
Proof.
  induction d as [|[k' v'] d IH]; simpl.
  - by rewrite decide_True.
  - destruct (decide (k = k')) as [->|Hne]; simpl.
    + by rewrite decide_True.
    + by rewrite decide_False.
Qed.

Lemma get_set_ne k k' v d : k ≠ k' → get k' (set k v d) = get k' d.
Proof.
  intros Hne. induction d as [|[k0 v0] d IH]; simpl.
  - by rewrite decide_False.
  - destruct (decide (k = k0)) as [->|Hk]; simpl.
    + by rewrite !decide_False.
    + by rewrite IH.
Qed.

Lemma get_None k d : get k d = None ↔ k ∉ keys d.
Proof.
  unfold keys. induction d as [|[k' v'] d IH]; simpl.
  - split; [intros _; apply not_elem_of_nil | done].
  - rewrite not_elem_of_cons. destruct (decide (k = k')) as [->|Hne].
    + split; [done|]. by intros [? _].
    + rewrite IH. split; [done|]. by intros [_ ?].
Qed.

Lemma get_Some_items k v d : get k d = Some v → (k, v) ∈ items d.
Proof.
  unfold items. induction d as [|[k' v'] d IH]; simpl; [done|].
  destruct (decide (k = k')) as [->|]; intros Hget.
  - injection Hget as ->. apply list_elem_of_here.
  - apply list_elem_of_further. by apply IH.
Qed.

Lemma get_Some_keys k v d : get k d = Some v → k ∈ keys d.
Proof.
  intros Hget. apply dec_stable. intros Hnot.
  apply get_None in Hnot. congruence.
Qed.

Lemma items_get k v d :
  NoDup (keys d) → (k, v) ∈ items d → get k d = Some v.
Proof.
  unfold keys, items. induction d as [|[k' v'] d IH]; simpl.
  - intros _ Hin. by apply elem_of_nil in Hin.
  - rewrite NoDup_cons. intros [Hfresh Hnodup] Hin.
    apply elem_of_cons in Hin as [Heq|Hin].
    + injection Heq as -> ->. by rewrite decide_True.
    + destruct (decide (k = k')) as [->|]; [|by apply IH].
      exfalso. apply Hfresh. apply list_elem_of_fmap. by exists (k', v).
Qed.

Lemma keys_set k v d :
  keys (set k v d) = if get k d is Some _ then keys d else keys d ++ [k].
Proof.
  unfold keys. induction d as [|[k' v'] d IH]; csimpl; [done|].
  destruct (decide (k = k')) as [->|]; csimpl; [done|].
  rewrite IH. by destruct (get k d).
Qed.

Lemma set_fresh k v d : k ∉ keys d → set k v d = d ++ [(k, v)].
Proof.
  unfold keys. induction d as [|[k' v'] d IH]; csimpl; [done|].
  rewrite not_elem_of_cons. intros [Hne Hfresh].
  rewrite decide_False by done. by rewrite IH.
Qed.

Lemma NoDup_keys_set k v d : NoDup (keys d) → NoDup (keys (set k v d)).
Proof.
  intros Hnodup. rewrite keys_set.
  destruct (get k d) eqn:Hget; [done|].
  apply NoDup_app. split_and!; [done| |apply NoDup_singleton].
  intros k' Hin Hin'. apply list_elem_of_singleton in Hin' as ->.
  by apply get_None in Hget.
Qed.
End Dict.

(** [split] is the inverse of joining with the separator, and no segment
    contains the separator. *)

Lemma split_nonempty sep s : split sep s ≠ [].
Proof.
  destruct s as [|c s]; simpl; [done|].
  destruct (Ascii.eqb c sep); [done|]. by destruct (split sep s).
Qed.

Lemma join_split sep s : join sep (split sep s) = s.
Proof.
  induction s as [|c s IH]; simpl; [done|].
  destruct (Ascii.eqb c sep) eqn:Hc.
  - apply Ascii.eqb_eq in Hc as ->.
    pose proof (split_nonempty sep s) as Hne.
    destruct (split sep s) as [|hd tl]; [done|].
    simpl in *. by rewrite IH.
  - pose proof (split_nonempty sep s) as Hne.
    destruct (split sep s) as [|hd tl]; [done|].
    simpl in *. destruct tl; simpl in *; by rewrite <- IH.
Qed.

Lemma split_no_separator sep s part :
  part ∈ split sep s → occurs sep part = false.
Proof.
  revert part. induction s as [|c s IH]; simpl; intros part Hin.
  - apply list_elem_of_singleton in Hin as ->. done.
  - destruct (Ascii.eqb c sep) eqn:Hc.
    + apply elem_of_cons in Hin as [->|Hin]; [done|by apply IH].
    + pose proof (split_nonempty sep s) as Hne.
      destruct (split sep s) as [|hd tl]; [done|].
      apply elem_of_cons in Hin as [->|Hin].
      * simpl. rewrite Hc. apply IH, list_elem_of_here.
      * apply IH. by apply list_elem_of_further.
Qed.
End PyFacts.

(** ** The router *)

Module RouterFacts.
Import Py Location Router PyFacts.

Section Router.
Context {F : Type} `{FlexibleLocation F} `{Hashable F}.
Context {Endpoint : Type} `{EqDecision Endpoint}.
Implicit Types (self : Router F Endpoint) (table : dict (Uri_t F) Endpoint).
Implicit Types (uri flexible : Uri_t F) (segs : list string).
Implicit Types (handler : Endpoint) (path : string).

(** *** The two loops of [validate] *)

Lemma scan_candidate table segs flexibles :
  scan table segs flexibles
  = match candidate segs flexibles with
    | Some flexible =>
        if hashable_uri flexible then Returned (get flexible table)
        else Raised TypeError
    | None => Returned None
    end.
Proof.
  induction flexibles as [|flexible rest IH]; simpl; [done|].
  unfold stops_at. case_bool_decide; simpl; [|done].
  by destruct (judge (zip segs flexible)).
Qed.

Lemma candidate_Some segs flexibles flexible :
  candidate segs flexibles = Some flexible →
  flexible ∈ flexibles ∧ length flexible = length segs
  ∧ judge (zip segs flexible) = true.
Proof.
  unfold candidate. intros Hfind.
  apply find_some in Hfind as [Hin Hstop].
  apply list_elem_of_In in Hin. unfold stops_at in Hstop.
  apply andb_prop in Hstop as [Hlen Hjudge].
  by apply bool_decide_eq_true in Hlen.
Qed.

Lemma candidate_app segs flexibles more flexible :
  candidate segs flexibles = Some flexible →
  candidate segs (flexibles ++ more) = Some flexible.
Proof.
  unfold candidate.
  induction flexibles as [|f rest IH]; simpl; [done|].
  by destruct (stops_at segs f).
Qed.

(** The inner loop never breaks on a literal: only a flexible locator
    that rejects its segment ends it early. *)
Lemma judge_true locations :
  judge locations = true
  ↔ ∀ loc_req f, (loc_req, Flexible f) ∈ locations →
                 is_valid f loc_req = true.
Proof.
  induction locations as [|[loc_req loc_flex] rest IH]; simpl.
  - split; [|done]. intros _ ? ? Hin. by apply elem_of_nil in Hin.
  - destruct loc_flex as [s|f]; simpl.
    + assert (judge rest = true
              ↔ ∀ r f, (r, Flexible f) ∈ (loc_req, Literal s) :: rest →
                       is_valid f r = true) as Hrest.
      { rewrite IH. split; intros Hall r f Hin.
        - apply elem_of_cons in Hin as [?|?]; [done|by apply Hall].
        - apply Hall. by apply elem_of_cons; right. }
      by destruct (bool_decide (loc_req = s)).
    + destruct (is_valid f loc_req) eqn:Hvalid.
      * rewrite IH. split; intros Hall r g Hin.
        -- apply elem_of_cons in Hin as [Heq|?]; [|by apply Hall].
           by injection Heq as -> ->.
        -- apply Hall. by apply elem_of_cons; right.
      * split; [done|]. intros Hall.
        rewrite <- Hvalid. apply Hall, list_elem_of_here.
Qed.

Lemma length_as_key segs : length (as_key (F:=F) segs) = length segs.
Proof. unfold as_key. apply length_fmap. Qed.

Lemma is_flexible_as_key segs : is_flexible_uri (as_key (F:=F) segs) = false.
Proof. unfold is_flexible_uri, as_key. by induction segs. Qed.

(** On a path that begins with the separator, the segments are the split
    of the whole path without its leading empty segment. *)
Lemma split_leading_separator rest :
  split "/" (String "/" rest) = "" :: segments (String "/" rest).
Proof. reflexivity. Qed.

(** *** The duplicate test *)

Lemma collide_refl (loc : Location_t F) : collide loc loc = true.
Proof. destruct loc; simpl; [by apply bool_decide_eq_true|done]. Qed.

Lemma is_duplicated_uri_refl uri : is_duplicated_uri uri uri = true.
Proof.
  unfold is_duplicated_uri. rewrite bool_decide_eq_true_2 by done. simpl.
  induction uri as [|loc uri IH]; simpl; [done|].
  by rewrite collide_refl.
Qed.

Lemma register_returns self uri handler self' :
  register self uri handler = (Returns, self') →
  (∀ uri_registered, uri_registered ∈ keys (uri2endpoint self) →
                     is_duplicated_uri uri_registered uri = false)
  ∧ uri2endpoint self' = set uri handler (uri2endpoint self)
  ∧ uris_flexible self'
    = if is_flexible_uri uri then uris_flexible self ++ [uri]
      else uris_flexible self.
Proof.
  unfold register.
  destruct (existsb _ _) eqn:Hdup; [done|].
  destruct (hashable_uri uri); [|done].
  intros [= <-]. split; [|done].
  intros uri_registered Hin.
  apply not_true_is_false. intros Hd.
  assert (existsb (λ u, is_duplicated_uri u uri) (keys (uri2endpoint self))
          = true) as Htrue; [|congruence].
  apply existsb_exists. exists uri_registered.
  split; [by apply list_elem_of_In|done].
Qed.

Lemma register_returns_hashable self uri handler self' :
  register self uri handler = (Returns, self') → hashable_uri uri = true.
Proof.
  unfold register. destruct (existsb _ _); [done|].
  by destruct (hashable_uri uri).
Qed.

(** A [register] that raises leaves the table as it was; it leaves the
    flexible-patterns list as it was when the pattern is a duplicate, and
    with the pattern appended when the pattern is unhashable. *)
Lemma register_raises self uri handler e self' :
  register self uri handler = (Raises e, self') →
  uri2endpoint self' = uri2endpoint self
  ∧ match e with
    | DuplicatedUriRegisteredError => self' = self
    | TypeError =>
        hashable_uri uri = false
        ∧ uris_flexible self'
          = if is_flexible_uri uri then uris_flexible self ++ [uri]
            else uris_flexible self
    end.
Proof.
  unfold register. destruct (existsb _ _).
  - by intros [= <- <-].
  - destruct (hashable_uri uri); [done|]. by intros [= <- <-].
Qed.

Lemma register_fresh self uri handler self' :
  register self uri handler = (Returns, self') →
  uri ∉ keys (uri2endpoint self).
Proof.
  intros Hreg Hin.
  apply register_returns in Hreg as (Hnodup & _ & _).
  specialize (Hnodup uri Hin). by rewrite is_duplicated_uri_refl in Hnodup.
Qed.

(** *** Invariants of the reachable routers *)

Lemma reachable_NoDup self :
  reachable self → NoDup (keys (uri2endpoint self)).
Proof.
  induction 1 as [|self c _ IH]; [apply NoDup_nil_2|].
  destruct c as [uri handler| |]; simpl; [|done..].
  unfold register. destruct (existsb _ _); simpl; [done|].
  destruct (hashable_uri uri); simpl; [|done].
  by apply NoDup_keys_set.
Qed.

Lemma unbroken_reachable self : reachable_unbroken self → reachable self.
Proof. induction 1; [apply reachable_init|by apply reachable_call]. Qed.

(** As long as no [register] raised [TypeError], the patterns of the
    flexible-patterns list are keys of the table, and hashable. *)
Lemma unbroken_flexible self flexible :
  reachable_unbroken self → flexible ∈ uris_flexible self →
  is_Some (get flexible (uri2endpoint self))
  ∧ hashable_uri flexible = true.
Proof.
  intros Hreach. revert flexible.
  induction Hreach as [|self c _ IH Hraises]; intros flexible; simpl.
  { intros Hin. by apply elem_of_nil in Hin. }
  destruct c as [uri handler| |]; simpl in *; [|by apply IH..].
  destruct (register self uri handler) as [[|[]] self'] eqn:Hreg;
    simpl in *; [| |done].
  - pose proof (register_returns_hashable _ _ _ _ Hreg) as Hhash.
    apply register_returns in Hreg as (_ & -> & ->). intros Hin.
    destruct (decide (uri = flexible)) as [->|Hne].
    { rewrite get_set_eq. split; [by eexists|done]. }
    rewrite get_set_ne by done. apply IH.
    destruct (is_flexible_uri uri); [|done].
    apply elem_of_app in Hin as [?|Hin]; [done|].
    by apply list_elem_of_singleton in Hin.
  - apply register_raises in Hreg as (_ & ->). apply IH.
Qed.

Lemma scan_unmatched_count table segs flexibles :
  (∀ flexible, flexible ∈ flexibles → hashable_uri flexible = true) →
  (∀ uri, uri ∈ keys table → length uri ≠ length segs) →
  scan table segs flexibles = Returned None.
Proof.
  intros Hhash Hcount.
  induction flexibles as [|flexible rest IH]; simpl; [done|].
  assert (scan table segs rest = Returned None) as Hrest.
  { apply IH. intros f Hin. by apply Hhash, list_elem_of_further. }
  case_bool_decide as Hlen; simpl; [|done].
  destruct (judge (zip segs flexible)); [|done].
  rewrite (Hhash flexible) by apply list_elem_of_here. f_equal.
  apply get_None. intros Hin. by apply (Hcount flexible).
Qed.

(** A successful registration keeps every resolution, unless the new
    pattern is exactly the segment sequence of the path. *)
Lemma register_keeps_resolution self uri handler self' path h :
  register self uri handler = (Returns, self') →
  as_key (segments path) ≠ uri →
  validate self path = Returned (Some h) →
  validate self' path = Returned (Some h).
Proof.
  intros Hreg Hkey.
  pose proof (register_fresh _ _ _ _ Hreg) as Hfresh.
  apply register_returns in Hreg as (_ & Htable & Hflex).
  unfold validate. rewrite Htable, Hflex, !scan_candidate.
  rewrite get_set_ne by done.
  destruct (get (as_key (segments path)) (uri2endpoint self)); [done|].
  destruct (candidate (segments path) (uris_flexible self))
    as [flexible|] eqn:Hcand; [|done].
  assert (candidate (segments path)
            (if is_flexible_uri uri then uris_flexible self ++ [uri]
             else uris_flexible self) = Some flexible) as ->.
  { destruct (is_flexible_uri uri); [by apply candidate_app|done]. }
  destruct (hashable_uri flexible); [|done].
  intros [= Hget]. rewrite get_set_ne; [by rewrite Hget|].
  intros ->. by apply get_Some_keys in Hget.
Qed.

(** What [search_uris] returns has no pattern twice, in the order of
    registration. *)
Lemma search_uris_sublist self handler :
  search_uris self handler `sublist_of` keys (uri2endpoint self).
Proof.
  unfold search_uris, keys, items. apply fmap_sublist, sublist_filter.
Qed.

(** After a successful registration [search_uris] returns, for the handler
    of the new route, the new pattern after the former ones, and for any
    other handler what it returned before. *)
Lemma search_uris_register self uri handler self' h :
  register self uri handler = (Returns, self') →
  search_uris self' h
  = search_uris self h ++ (if decide (handler = h) then [uri] else []).
Proof.
  intros Hreg.
  pose proof (register_fresh _ _ _ _ Hreg) as Hfresh.
  apply register_returns in Hreg as (_ & Htable & _).
  unfold search_uris, items. rewrite Htable, set_fresh by done.
  rewrite filter_app, fmap_app. f_equal.
  rewrite filter_cons, filter_nil. simpl.
  by destruct (decide (handler = h)).
Qed.

(** *** The properties of the design document *)

(** C3: for every router and every pattern [P2] that the duplicate test
    finds ambiguous with an already registered pattern [P1],
    [register P2 handler] raises [DuplicatedUriRegisteredError] and
    leaves the router as it was: the table and the flexible-patterns
    list are those before the call, and every path resolves as before. *)
Theorem register_duplicated_raises self P1 P2 handler :
  P1 ∈ keys (uri2endpoint self) →
  is_duplicated_uri P1 P2 = true →
  register self P2 handler = (Raises DuplicatedUriRegisteredError, self)
  ∧ uri2endpoint (after self (Register P2 handler)) = uri2endpoint self
  ∧ uris_flexible (after self (Register P2 handler)) = uris_flexible self
  ∧ ∀ path,
      validate (after self (Register P2 handler)) path = validate self path.
Proof.
  intros Hin Hdup.
  assert (register self P2 handler
          = (Raises DuplicatedUriRegisteredError, self)) as Hreg.
  { unfold register.
    assert (existsb (λ u, is_duplicated_uri u P2)
              (keys (uri2endpoint self)) = true) as ->; [|done].
    apply existsb_exists. exists P1.
    split; [by apply list_elem_of_In|done]. }
  simpl. by rewrite Hreg.
Qed.

(** Where every pattern of the flexible-patterns list is hashable,
    [validate] returns, on every path string, [None] or a handler stored in
    the table; and a path whose segment count is that of no registered
    pattern yields [None].  [validate] raises [TypeError] only when the scan
    stops at an unhashable pattern. *)
Lemma validate_returns_hashable self path :
  (∀ flexible, flexible ∈ uris_flexible self →
               hashable_uri flexible = true) →
  (validate self path = Returned None
   ∨ ∃ uri handler, (uri, handler) ∈ items (uri2endpoint self)
                    ∧ validate self path = Returned (Some handler))
  ∧ ((∀ uri, uri ∈ keys (uri2endpoint self) →
             length uri ≠ length (segments path)) →
     validate self path = Returned None).
Proof.
  intros Hhash. split.
  - unfold validate.
    destruct (get (as_key (segments path)) (uri2endpoint self))
      as [handler|] eqn:Hget.
    { right. exists (as_key (segments path)), handler.
      split; [by apply get_Some_items|done]. }
    rewrite scan_candidate.
    destruct (candidate _ _) as [flexible|] eqn:Hcand; simpl; [|by left].
    apply candidate_Some in Hcand as (Hin & _ & _).
    rewrite (Hhash _ Hin).
    destruct (get flexible (uri2endpoint self)) as [handler|] eqn:Hflex;
      [|by left].
    right. exists flexible, handler.
    split; [by apply get_Some_items|done].
  - intros Hcount. unfold validate.
    assert (get (as_key (segments path)) (uri2endpoint self) = None) as ->.
    { apply get_None. intros Hin.
      apply (Hcount _ Hin). apply length_as_key. }
    by apply scan_unmatched_count.
Qed.

Lemma validate_raises self path e :
  validate self path = Raised e →
  e = TypeError
  ∧ ∃ flexible, candidate (segments path) (uris_flexible self)
                = Some flexible
                ∧ hashable_uri flexible = false.
Proof.
  unfold validate.
  destruct (get (as_key (segments path)) (uri2endpoint self)); [done|].
  rewrite scan_candidate.
  destruct (candidate _ _) as [flexible|]; [|done].
  destruct (hashable_uri flexible) eqn:Hhash; [done|].
  intros [= <-]. split; [done|]. by exists flexible.
Qed.

(** C6: for every all-literal pattern that the table maps to [handler]
    and every path whose segment sequence is that pattern, [validate]
    returns [handler]; the exact-match lookup finds it, whatever the
    flexible-patterns list holds.  For a path that begins with the
    separator the segment sequence is the split of the path without its
    leading empty segment. *)
Theorem validate_exact_match self literals handler :
  get (as_key literals) (uri2endpoint self) = Some handler →
  is_flexible_uri (as_key (F:=F) literals) = false
  ∧ (∀ path,
       segments path = literals →
       validate self path = Returned (Some handler)
       ∧ ∀ flexibles,
           validate {| uri2endpoint := uri2endpoint self;
                       uris_flexible := flexibles |} path
           = Returned (Some handler))
  ∧ (∀ rest,
       split "/" (String "/" rest) = "" :: literals →
       validate self (String "/" rest) = Returned (Some handler)).
Proof.
  intros Hget. split_and!.
  - apply is_flexible_as_key.
  - intros path <-. unfold validate; simpl. by rewrite Hget.
  - intros rest Hsplit. rewrite split_leading_separator in Hsplit.
    injection Hsplit as <-. unfold validate. by rewrite Hget.
Qed.

(** C8: [search_uris handler] returns exactly the patterns that the table
    maps to [handler], compared by identity: a pattern is in the result if
    and only if an item of the table pairs it with [handler], which, the
    keys of a [dict] being distinct, is to say that the table maps it to
    [handler]; no pattern is returned twice; and the call leaves the router
    as it was. *)
Theorem search_uris_exact self handler :
  (∀ uri, uri ∈ search_uris self handler
          ↔ (uri, handler) ∈ items (uri2endpoint self))
  ∧ (NoDup (keys (uri2endpoint self)) →
     (∀ uri, uri ∈ search_uris self handler
             ↔ get uri (uri2endpoint self) = Some handler)
     ∧ NoDup (search_uris self handler))
  ∧ after self (SearchUris handler) = self.
Proof.
  assert (∀ uri, uri ∈ search_uris self handler
                 ↔ (uri, handler) ∈ items (uri2endpoint self)) as Hitems.
  { intros uri. unfold search_uris. rewrite list_elem_of_fmap. split.
    - intros ([uri' h] & -> & Hin).
      apply list_elem_of_filter in Hin as [Hh Hin]. simpl in Hh.
      by subst.
    - intros Hin. exists (uri, handler).
      split; [done|]. by apply list_elem_of_filter. }
  split_and!; [done| |done].
  intros Hnodup. split.
  - intros uri. rewrite Hitems. split.
    + by apply items_get.
    + apply get_Some_items.
  - eapply sublist_NoDup; [done|]. apply search_uris_sublist.
Qed.

(** In every router reached from [Router()] by calls of [register],
    [validate] and [search_uris] of which no [register] raised [TypeError],
    each pattern of the flexible-patterns list is a key of the table; hence
    the lookup made when the scan stops at a flexible candidate finds a
    handler, which [validate] returns. *)
Lemma unbroken_flexible_registered self :
  reachable_unbroken self →
  (∀ flexible, flexible ∈ uris_flexible self →
               flexible ∈ keys (uri2endpoint self))
  ∧ (∀ path flexible,
       get (as_key (segments path)) (uri2endpoint self) = None →
       candidate (segments path) (uris_flexible self) = Some flexible →
       ∃ handler, get flexible (uri2endpoint self) = Some handler
                  ∧ validate self path = Returned (Some handler)).
Proof.
  intros Hreach. split.
  - intros flexible Hin.
    destruct (unbroken_flexible self flexible Hreach Hin) as [[h Hget] _].
    by apply get_Some_keys in Hget.
  - intros path flexible Hexact Hcand.
    pose proof (candidate_Some _ _ _ Hcand) as (Hin & _ & _).
    destruct (unbroken_flexible self flexible Hreach Hin)
      as [[h Hget] Hhash].
    exists h. split; [done|].
    unfold validate. by rewrite Hexact, scan_candidate, Hcand, Hhash, Hget.
Qed.


End Router.

(** C1: the scan returns a candidate whose literal segment differs from the
    request segment: with [("test", AnyStringLocation())] registered, the
    path ["/other/abc"] resolves to its handler, although ["other"] is not
    ["test"]. *)
Example validate_returns_literal_mismatch :
  segments "/other/abc" = ["other"; "abc"]
  ∧ uris_flexible router_test
    = [[Literal "test"; Flexible AnyStringLocation]]
  ∧ get (as_key (segments "/other/abc")) (uri2endpoint router_test) = None
  ∧ validate router_test "/other/abc" = Returned (Some MockEndpoint).
Proof. by split_and!. Qed.

(** C5: a successful registration changes the result of a path that
    resolved before: with [("x", AnyStringLocation())] registered,
    ["/a/b"] resolves to its handler; [("a", "b")] is then registered
    without error and ["/a/b"] resolves to the new handler. *)
Example register_changes_resolution :
  validate router_x "/a/b" = Returned (Some MockEndpoint)
  ∧ (register router_x [Literal "a"; Literal "b"] OtherEndpoint).1 = Returns
  ∧ validate (register router_x [Literal "a"; Literal "b"] OtherEndpoint).2
      "/a/b" = Returned (Some OtherEndpoint).
Proof. by split_and!. Qed.

(** C9: a [register] that raises [TypeError] leaves in the
    flexible-patterns list a pattern that is no key of the table: on the
    new router, [register(("a", VersionLocation()), MockEndpoint)] appends
    the pattern (line 49) and then raises at the assignment to the table
    (line 50), the locator being unhashable; the router it leaves is
    reachable, its list holds the pattern and its table is empty. *)
Example register_leaves_flexible_unregistered :
  register init [Literal "a"; Flexible VersionLocation] MockEndpoint
  = (Raises TypeError, router_version)
  ∧ reachable router_version
  ∧ uris_flexible router_version = [[Literal "a"; Flexible VersionLocation]]
  ∧ keys (uri2endpoint router_version) = []
  ∧ [Literal "a"; Flexible VersionLocation]
    ∉ keys (uri2endpoint router_version).
Proof.
  split_and!; [done| |done|done|].
  - exact (reachable_call init (Register _ _) reachable_init).
  - intros Hin. by apply elem_of_nil in Hin.
Qed.

(** C4: [validate] raises: on the router left by
    [register(("a", VersionLocation()), MockEndpoint)], whose table has no
    key, so that the segment count of ["/a/v1"] is that of no registered
    pattern, the scan stops at the pattern left in the flexible-patterns
    list and the lookup of line 84 raises [TypeError]. *)
Example validate_raises_TypeError :
  reachable router_version
  ∧ (∀ uri, uri ∈ keys (uri2endpoint router_version) →
            length uri ≠ length (segments "/a/v1"))
  ∧ candidate (segments "/a/v1") (uris_flexible router_version)
    = Some [Literal "a"; Flexible VersionLocation]
  ∧ validate router_version "/a/v1" = Raised TypeError.
Proof.
  split_and!; [| |done|done].
  - exact (reachable_call init (Register _ _) reachable_init).
  - intros uri Hin. by apply elem_of_nil in Hin.
Qed.

(** *** The properties at concrete routers *)

(** [test_duplicated_uris] passes. *)
Example test_duplicated_uris_passes : test_duplicated_uris = true.
Proof. reflexivity. Qed.

Lemma reachable_registered routes : reachable (registered routes).
Proof.
  unfold registered.
  induction routes as [|route routes IH] using rev_ind.
  - apply reachable_init.
  - rewrite foldl_app.
    by apply (reachable_call _ (Register route.1 route.2)).
Qed.

Lemma register_duplicated_raises_witness :
  test_hoge_any ∈ keys (uri2endpoint router_hoge)
  ∧ is_duplicated_uri test_hoge_any test_hoge_image = true
  ∧ register router_hoge test_hoge_image MockEndpoint
    = (Raises DuplicatedUriRegisteredError, router_hoge).
Proof.
  assert (test_hoge_any ∈ keys (uri2endpoint router_hoge)) as Hin.
  { vm_compute. apply list_elem_of_here. }
  assert (is_duplicated_uri test_hoge_any test_hoge_image = true) as Hdup.
  { reflexivity. }
  split_and!; [done..|].
  apply (register_duplicated_raises router_hoge test_hoge_any
           test_hoge_image MockEndpoint Hin Hdup).
Defined.

Lemma validate_exact_match_witness :
  get (as_key ["about"]) (uri2endpoint router_users) = Some OtherEndpoint
  ∧ split "/" "/about" = [""; "about"]
  ∧ validate router_users "/about" = Returned (Some OtherEndpoint).
Proof.
  assert (get (as_key ["about"]) (uri2endpoint router_users)
          = Some OtherEndpoint) as Hget.
  { reflexivity. }
  split_and!; [done|reflexivity|].
  apply (validate_exact_match router_users ["about"] OtherEndpoint Hget).
  reflexivity.
Defined.

Lemma search_uris_exact_witness :
  NoDup (keys (uri2endpoint router_users))
  ∧ ([Literal "about"] ∈ search_uris router_users OtherEndpoint
     ↔ get [Literal "about"] (uri2endpoint router_users)
       = Some OtherEndpoint).
Proof.
  assert (NoDup (keys (uri2endpoint router_users))) as Hnodup.
  { apply (bool_decide_unpack _). vm_compute. exact I. }
  split; [done|].
  apply (search_uris_exact router_users OtherEndpoint), Hnodup.
Defined.

End RouterFacts.

(** ** The binding engine *)

Module ApiFacts.
Import Api.

Lemma bind_Bound_inv {A B} (m : result A) (k : A → result B) (b : B) :
  m ≫= k = Bound b → ∃ a, m = Bound a ∧ k a = Bound b.
Proof. destruct m as [a|f]; [by exists a|done]. Qed.

Section Engine.
Variable widen : bool.
Implicit Types (d : descriptor) (members : gmap string GenericValue).
Implicit Types (name : string) (fields others : gmap string BoundValue).

(** The fields are bound from the values of the declared names alone. *)
Lemma bind_fields_agree d members members' :
  (∀ name, name ∈ names d → members !! name = members' !! name) →
  bind_fields widen d members = bind_fields widen d members'.
Proof.
  induction d as [|name kind required default rest IH]; simpl; [done|].
  intros Hagree.
  rewrite <- (Hagree name) by apply list_elem_of_here.
  rewrite IH; [done|].
  intros name' Hin. by apply Hagree, list_elem_of_further.
Qed.

(** The Bound Object has the declared names and no other. *)
Lemma bind_fields_undeclared d members fields key :
  bind_fields widen d members = Bound fields →
  key ∉ names d → fields !! key = None.
Proof.
  revert fields.
  induction d as [|name kind required default rest IH]; simpl.
  - intros fields [= <-] _. apply lookup_empty.
  - intros fields Hbind Hkey.
    apply not_elem_of_cons in Hkey as [Hne Hkey].
    apply bind_Bound_inv in Hbind as (x & _ & Hbind).
    apply bind_Bound_inv in Hbind as (others & Hrest & [= <-]).
    rewrite lookup_insert_ne by done. by apply IH.
Qed.

(** A field of optional kind with a default, absent or null in the input,
    contributes its default and no failure. *)
Lemma bind_fields_optional d members name dflt :
  optional_with_default name dflt d →
  members !! name = Some GNull ∨ members !! name = None →
  bind_fields widen d members
  = insert name dflt <$> bind_fields widen (without name d) members.
Proof.
  intros Hopt Hinput.
  induction d as [|name' kind required default rest IH]; simpl in *; [done|].
  destruct (decide (name = name')) as [<-|Hne].
  - destruct Hopt as ([k ->] & -> & ->).
    destruct Hinput as [-> | ->]; simpl;
      by destruct (bind_fields widen rest members).
  - rewrite (IH Hopt). simpl.
    destruct (match members !! name' with Some _ => _ | None => _ end)
      as [x|f]; simpl; [|done].
    destruct (bind_fields widen (without name rest) members) as [others|f];
      simpl; [|done].
    by rewrite insert_insert_ne.
Qed.

Variable decode : string → option GenericValue.

(** An undeclared key of the input is not looked at: the payload with the
    key binds as the payload without it, and the Bound Object does not have
    the key. *)
Lemma bind_extra_key d raw raw' members extra v bo :
  decode raw = Some (GObject members) →
  decode raw' = Some (GObject (<[extra := v]> members)) →
  extra ∉ names d →
  bind widen decode raw d = Bound bo →
  bind widen decode raw' d = Bound bo
  ∧ ∃ fields, bo = BObject fields ∧ fields !! extra = None.
Proof.
  unfold bind, bind_value. intros -> -> Hextra. simpl.
  rewrite (bind_fields_agree d (<[extra := v]> members) members).
  - destruct (bind_fields widen d members) as [fields|f] eqn:Hbind; [|done].
    simpl. intros [= <-]. split; [done|].
    exists fields. split; [done|].
    by apply (bind_fields_undeclared d members).
  - intros name Hin. apply lookup_insert_ne. by intros ->.
Qed.

(** C7: for every descriptor in which a field is declared optional with a
    declared default, an input that maps the key of the field to null, or
    omits the key, binds without failure on account of that field: when the
    other fields bind, [bind] returns the Bound Object with the field at its
    default; a failure of [bind] is a failure of the other fields; and a
    Bound Object it returns holds the default at the field. *)
Theorem bind_optional_default d raw members name dflt :
  decode raw = Some (GObject members) →
  optional_with_default name dflt d →
  members !! name = Some GNull ∨ members !! name = None →
  (∀ others,
     bind widen decode raw (without name d) = Bound (BObject others) →
     bind widen decode raw d = Bound (BObject (<[name := dflt]> others)))
  ∧ (∀ f, bind widen decode raw d = Failed f →
          bind widen decode raw (without name d) = Failed f)
  ∧ (∀ fields, bind widen decode raw d = Bound (BObject fields) →
               fields !! name = Some dflt).
Proof.
  intros Hraw Hopt Hinput. unfold bind, bind_value. rewrite Hraw. simpl.
  rewrite (bind_fields_optional d members name dflt Hopt Hinput).
  destruct (bind_fields widen (without name d) members) as [others|f]; simpl.
  - split_and!.
    + by intros ? [= <-].
    + done.
    + intros ? [= <-]. apply lookup_insert_eq.
  - by split_and!.
Qed.

End Engine.

(** *** The payloads of the test-suite on the model *)

(** [test_union_data] passes: [{"name": "hogehoge", "age": null}] binds,
    with [name == "hogehoge"] and [age is None]. *)
Example test_union_data_passes :
  test_union_data (flip (bind false decode_fixtures)) = true.
Proof. vm_compute. reflexivity. Qed.

(** [{"name": "hogehoge", "Age": 30}], the payload of
    [test_key_not_included], binds: ["Age"] is not looked at and the absent
    ["age"] takes its default. *)
Example key_not_included_binds :
  bind false decode_fixtures data_key_not_included TestUnionData
  = Bound (BObject (<["name" := BStr "hogehoge"]> (<["age" := BNone]> ∅))).
Proof. vm_compute. reflexivity. Qed.

(** The payload with the undeclared key binds as the payload without
    it. *)
Example key_not_included_as_name_only :
  bind false decode_fixtures data_key_not_included TestUnionData
  = bind false decode_fixtures data_name_only TestUnionData.
Proof. vm_compute. reflexivity. Qed.

(** Hence [test_key_not_included], which expects [ValidationFailedError]
    for this payload, does not pass on the engine of the design document. *)
Example test_key_not_included_fails :
  test_key_not_included (flip (bind false decode_fixtures)) = false.
Proof. vm_compute. reflexivity. Qed.

Lemma bind_optional_default_witness :
  decode_fixtures data_union
  = Some (GObject (<["name" := GString "hogehoge"]> (<["age" := GNull]> ∅)))
  ∧ optional_with_default "age" BNone TestUnionData
  ∧ bind false decode_fixtures data_union TestUnionData
    = Bound (BObject (<["age" := BNone]> (<["name" := BStr "hogehoge"]> ∅))).
Proof.
  assert (decode_fixtures data_union
          = Some (GObject (<["name" := GString "hogehoge"]>
                             (<["age" := GNull]> ∅)))) as Hraw.
  { reflexivity. }
  assert (optional_with_default "age" BNone TestUnionData) as Hopt.
  { simpl. split_and!; [by exists (Scalar TInteger)|done..]. }
  split_and!; [done..|].
  apply (bind_optional_default false decode_fixtures TestUnionData data_union
           _ "age" BNone Hraw Hopt).
  - left. vm_compute. reflexivity.
  - vm_compute. reflexivity.
Defined.

End ApiFacts.

(** ** More on the router *)

Module RouterMore.
Import Py Location Router PyFacts RouterFacts.

(** *** [split] after [join] *)

Lemma split_without_separator sep s :
  occurs sep s = false → split sep s = [s].
Proof.
  induction s as [|c s IH]; simpl; [done|].
  intros Hocc. apply orb_false_elim in Hocc as [Hc Hocc].
  rewrite Hc, (IH Hocc). done.
Qed.

Lemma split_append sep s rest :
  occurs sep s = false →
  split sep (s +:+ String sep rest) = s :: split sep rest.
Proof.
  induction s as [|c s IH]; simpl.
  - intros _. by rewrite Ascii.eqb_refl.
  - intros Hocc. apply orb_false_elim in Hocc as [Hc Hocc].
    by rewrite Hc, (IH Hocc).
Qed.

Lemma split_join sep parts :
  parts ≠ [] →
  (∀ part, part ∈ parts → occurs sep part = false) →
  split sep (join sep parts) = parts.
Proof.
  induction parts as [|part parts IH]; [done|].
  intros _ Hparts.
  assert (occurs sep part = false) as Hpart by apply Hparts, list_elem_of_here.
  destruct parts as [|next parts].
  - simpl. by apply split_without_separator.
  - change (join sep (part :: next :: parts))
      with (part +:+ String sep (join sep (next :: parts))).
    rewrite split_append by done. f_equal.
    apply IH; [done|].
    intros p Hp. by apply Hparts, list_elem_of_further.
Qed.

Section Router.
Context {F : Type} `{FlexibleLocation F} `{Hashable F}.
Context {Endpoint : Type} `{EqDecision Endpoint}.
Implicit Types (self : Router F Endpoint) (table : dict (Uri_t F) Endpoint).
Implicit Types (uri flexible : Uri_t F) (segs : list string).
Implicit Types (handler : Endpoint) (path : string).

(** X1: a literal route resolves once it is registered: when [register]
    returns for a pattern of literals, none of which holds the separator
    and of which there is at least one, [validate] on the separator
    followed by the literals joined with the separator returns the
    endpoint just registered. *)
Theorem register_then_validate self literals handler self' :
  register self (as_key literals) handler = (Returns, self') →
  literals ≠ [] →
  (∀ literal, literal ∈ literals → occurs "/" literal = false) →
  validate self' (String "/" (join "/" literals)) = Returned (Some handler).
Proof.
  intros Hreg Hne Hliterals.
  apply register_returns in Hreg as (_ & Htable & _).
  unfold validate, segments. simpl.
  by rewrite (split_join "/" literals Hne Hliterals), Htable, get_set_eq.
Qed.

(** X4: what the scan of [validate] returns: when the exact lookup misses
    and [validate] returns a handler, the flexible-patterns list holds a
    pattern with the segment count of the path, mapped to that handler by
    the table, every flexible locator of which accepts the segment at its
    position, and the scan stopped at no pattern before it. *)
Theorem validate_by_scan self path handler :
  get (as_key (segments path)) (uri2endpoint self) = None →
  validate self path = Returned (Some handler) →
  ∃ before flexible after,
    uris_flexible self = before ++ flexible :: after
    ∧ get flexible (uri2endpoint self) = Some handler
    ∧ length flexible = length (segments path)
    ∧ (∀ segment f, (segment, Flexible f) ∈ zip (segments path) flexible →
                    is_valid f segment = true)
    ∧ ∀ earlier, earlier ∈ before →
                 stops_at (segments path) earlier = false.
Proof.
  intros Hexact. unfold validate. rewrite Hexact, scan_candidate.
  unfold candidate. generalize (uris_flexible self) as flexibles.
  induction flexibles as [|first rest IH]; simpl; [done|].
  destruct (stops_at (segments path) first) eqn:Hstop; simpl.
  - destruct (hashable_uri first); [|done].
    intros [= Hget]. exists [], first, rest.
    unfold stops_at in Hstop. apply andb_prop in Hstop as [Hlen Hjudge].
    apply bool_decide_eq_true in Hlen.
    split_and!; [done..| |].
    + by apply judge_true.
    + intros earlier Hin. by apply elem_of_nil in Hin.
  - intros Hfound. destruct (IH Hfound)
      as (before & flexible & after & -> & Hget & Hlen & Hvalid & Hbefore).
    exists (first :: before), flexible, after.
    split_and!; [done..|].
    intros earlier Hin. apply elem_of_cons in Hin as [->|Hin]; [done|].
    by apply Hbefore.
Qed.

(** X5: in every router reached from [Router()] by calls of its methods of
    which no [register] raised [TypeError], the flexible-patterns list is
    the list of the keys of the table that are flexible, in the order of
    registration; in particular it holds no pattern twice. *)
Theorem flexible_list_of_keys self :
  reachable_unbroken self →
  uris_flexible self
  = filter (λ uri, is_flexible_uri uri = true) (keys (uri2endpoint self))
  ∧ NoDup (uris_flexible self).
Proof.
  intros Hreach.
  assert (uris_flexible self
          = filter (λ uri, is_flexible_uri uri = true)
              (keys (uri2endpoint self))) as Heq.
  { induction Hreach as [|self c _ IH Hraises]; [done|].
    destruct c as [uri handler| |]; simpl in *; [|done..].
    destruct (register self uri handler) as [[|[]] self'] eqn:Hreg;
      simpl in *; [| |done].
    - pose proof (register_fresh _ _ _ _ Hreg) as Hfresh.
      apply register_returns in Hreg as (_ & -> & ->).
      unfold keys in *. rewrite set_fresh, fmap_app, filter_app by done.
      rewrite <- IH. simpl. rewrite filter_cons, filter_nil.
      destruct (is_flexible_uri uri); simpl; [done|].
      symmetry. apply app_nil_r.
    - by apply register_raises in Hreg as (_ & ->). }
  split; [done|]. rewrite Heq.
  apply NoDup_filter. by apply reachable_NoDup, unbroken_reachable.
Qed.

(** X6: in every router reached from [Router()] by calls of its methods, no
    key of the table was found a duplicate of a key registered before it:
    [is_duplicated_uri] is false on every pair of keys taken in the order
    of registration. *)
Theorem keys_not_duplicated self :
  reachable self →
  ∀ i j earlier later,
    i < j →
    keys (uri2endpoint self) !! i = Some earlier →
    keys (uri2endpoint self) !! j = Some later →
    is_duplicated_uri earlier later = false.
Proof.
  induction 1 as [|self c _ IH]; intros i j earlier later Hlt Hi Hj.
  { unfold keys in Hi. simpl in Hi. by rewrite lookup_nil in Hi. }
  destruct c as [uri handler| |]; simpl in *;
    [|exact (IH i j _ _ Hlt Hi Hj)..].
  destruct (register self uri handler) as [[|e] self'] eqn:Hreg; simpl in *.
  - apply register_returns in Hreg as (Hnodup & Htable & _).
    rewrite Htable, keys_set in Hi, Hj.
    destruct (get uri (uri2endpoint self)) eqn:Hget;
      [exact (IH i j _ _ Hlt Hi Hj)|].
    unfold keys in *.
    assert (j < length ((uri2endpoint self).*1 ++ [uri])) as Hjlen.
    { by apply lookup_lt_Some in Hj. }
    rewrite length_app in Hjlen. simpl in Hjlen.
    rewrite lookup_app_l in Hi by lia.
    destruct (decide (j < length (uri2endpoint self).*1)) as [Hj'|Hj'].
    + rewrite lookup_app_l in Hj by done. exact (IH i j _ _ Hlt Hi Hj).
    + rewrite lookup_app_r in Hj by lia.
      assert (j - length (uri2endpoint self).*1 = 0) as Hzero by lia.
      rewrite Hzero in Hj. injection Hj as <-.
      apply Hnodup. by eapply list_elem_of_lookup_2.
  - apply register_raises in Hreg as (Htable & _).
    rewrite Htable in Hi, Hj. exact (IH i j _ _ Hlt Hi Hj).
Qed.

(** X7: the segments of a path, joined with the separator, are the path
    without its first character; there is at least one segment and none
    holds the separator.  Hence two paths have the same segments exactly
    when they agree after their first character. *)
Theorem segments_join :
  (∀ path, join "/" (segments path) = slice_from_1 path
           ∧ segments path ≠ []
           ∧ ∀ segment, segment ∈ segments path →
                        occurs "/" segment = false)
  ∧ ∀ path1 path2,
      segments path1 = segments path2
      ↔ slice_from_1 path1 = slice_from_1 path2.
Proof.
  split.
  - intros path. unfold segments. split_and!.
    + apply join_split.
    + apply split_nonempty.
    + intros segment. apply split_no_separator.
  - intros path1 path2. unfold segments. split; [|by intros ->].
    intros Hsegs.
    by rewrite <- (join_split "/" (slice_from_1 path1)), Hsegs, join_split.
Qed.

(** X2: a successful registration and the paths that resolved before: such
    a path resolves to the endpoint just registered when the new pattern
    is the tuple of its segments, and to the same handler as before
    otherwise. *)
Theorem register_then_resolution self uri handler self' path h :
  register self uri handler = (Returns, self') →
  validate self path = Returned (Some h) →
  validate self' path
  = Returned
      (Some (if decide (as_key (segments path) = uri) then handler else h)).
Proof.
  intros Hreg Hresolved. case_decide as Hkey.
  - apply register_returns in Hreg as (_ & Htable & _).
    unfold validate. by rewrite Htable, Hkey, get_set_eq.
  - by eapply register_keeps_resolution.
Qed.

(** X3: after a successful registration [search_uris] returns, for the
    endpoint of the new route, what it returned before followed by the new
    pattern, and for any other endpoint what it returned before. *)
Theorem search_uris_after_register self uri handler self' :
  register self uri handler = (Returns, self') →
  ∀ h, search_uris self' h
       = search_uris self h ++ (if decide (handler = h) then [uri] else []).
Proof. intros Hreg h. by apply search_uris_register. Qed.

(** X15: [validate] respects the segment count: a handler it returns is
    stored in the table under a pattern that has as many segments as the
    path. *)
Theorem validate_segment_count self path handler :
  validate self path = Returned (Some handler) →
  ∃ uri, get uri (uri2endpoint self) = Some handler
         ∧ length uri = length (segments path).
Proof.
  intros Hresolved.
  destruct (get (as_key (segments path)) (uri2endpoint self))
    as [h|] eqn:Hexact.
  - exists (as_key (segments path)). split; [|apply length_as_key].
    unfold validate in Hresolved. rewrite Hexact in Hresolved |- *.
    by injection Hresolved as ->.
  - destruct (validate_by_scan self path handler Hexact Hresolved)
      as (_ & flexible & _ & _ & Hget & Hlen & _).
    by exists flexible.
Qed.

Lemma get_after self c key h :
  get key (uri2endpoint self) = Some h →
  get key (uri2endpoint (after self c)) = Some h.
Proof.
  intros Hget. destruct c as [uri handler| |]; simpl; [|done..].
  destruct (register self uri handler) as [[|e] self'] eqn:Hreg; simpl.
  - pose proof (register_fresh _ _ _ _ Hreg) as Hfresh.
    apply register_returns in Hreg as (_ & -> & _).
    rewrite get_set_ne; [done|].
    intros ->. by apply get_Some_keys in Hget.
  - apply register_raises in Hreg as (-> & _). done.
Qed.

(** X16: a path that the exact lookup resolves keeps its handler for good:
    whatever calls of [register], [validate] and [search_uris] follow,
    [validate] returns the same handler for it. *)
Theorem exact_resolution_is_stable self calls path handler :
  get (as_key (segments path)) (uri2endpoint self) = Some handler →
  validate (foldl after self calls) path = Returned (Some handler).
Proof.
  revert self. induction calls as [|c calls IH]; intros self Hget; simpl.
  - unfold validate. by rewrite Hget.
  - by apply IH, get_after.
Qed.

End Router.

(** A pattern of standard locators is hashable; hence no [register] of such
    a pattern raises [TypeError]. *)
Lemma hashable_uri_std (uri : Uri_t StdLocation) : hashable_uri uri = true.
Proof.
  unfold hashable_uri. apply forallb_forall. by intros [literal|f] _.
Qed.

Lemma unbroken_registered routes : reachable_unbroken (registered routes).
Proof.
  unfold registered.
  induction routes as [|route routes IH] using rev_ind.
  - apply unbroken_init.
  - rewrite foldl_app.
    apply (unbroken_call _ (Register route.1 route.2)); [done|]. simpl.
    destruct (register _ _ _) as [[|[]] self'] eqn:Hreg; simpl; [done..|].
    apply register_raises in Hreg as (_ & Hhash & _).
    by rewrite hashable_uri_std in Hhash.
Qed.

(** X17: [_test_duplicated_uris] passes exactly on a list with a duplicate:
    registering patterns in sequence raises
    [DuplicatedUriRegisteredError] if and only if [is_duplicated_uri] holds
    of a key of the router and a pattern of the list, or of a pattern of
    the list and a later one. *)
Theorem raises_duplicated_iff router patterns :
  raises_duplicated router patterns = true
  ↔ ∃ earlier later,
      is_duplicated_uri earlier later = true
      ∧ ((earlier ∈ keys (uri2endpoint router) ∧ later ∈ patterns)
         ∨ ∃ i j, i < j ∧ patterns !! i = Some earlier
                  ∧ patterns !! j = Some later).
Proof.
  revert router.
  induction patterns as [|uri patterns IH]; intros router; simpl.
  { split; [done|].
    intros (earlier & later & _ & [[_ Hin]|(i & j & _ & Hi & _)]).
    - by apply elem_of_nil in Hin.
    - by rewrite lookup_nil in Hi. }
  destruct (register router uri MockEndpoint) as [[|[]] router'] eqn:Hreg.
  - apply register_returns in Hreg as (Hnodup & Htable & _).
    assert (∀ k, k ∈ keys (uri2endpoint router')
                 ↔ k ∈ keys (uri2endpoint router) ∨ k = uri) as Hkeys.
    { intros k. rewrite Htable, keys_set.
      destruct (get uri (uri2endpoint router)) eqn:Hget.
      - split; [by left|]. intros [?| ->]; [done|].
        by eapply get_Some_keys.
      - by rewrite elem_of_app, list_elem_of_singleton. }
    rewrite IH. split.
    + intros (earlier & later & Hdup & [[Hin Hlater]|(i & j & ? & ? & ?)]).
      * exists earlier, later. split; [done|].
        apply Hkeys in Hin as [Hin| ->].
        -- left. split; [done|]. by apply list_elem_of_further.
        -- right. apply list_elem_of_lookup_1 in Hlater as [j Hj].
           exists 0, (S j). split_and!; [lia|done..].
      * exists earlier, later. split; [done|]. right.
        exists (S i), (S j). split_and!; [lia|done..].
    + intros (earlier & later & Hdup & [[Hin Hlater]|(i & j & Hlt & Hi & Hj)]).
      * apply elem_of_cons in Hlater as [->|Hlater].
        { by rewrite (Hnodup earlier Hin) in Hdup. }
        exists earlier, later. split; [done|]. left.
        split; [|done]. apply Hkeys. by left.
      * destruct j as [|j]; [lia|]. simpl in Hj.
        exists earlier, later. split; [done|].
        destruct i as [|i]; simpl in Hi.
        -- injection Hi as ->. left. split.
           ++ apply Hkeys. by right.
           ++ by eapply list_elem_of_lookup_2.
        -- right. exists i, j. split_and!; [lia|done..].
  - split; [|done]. intros _.
    unfold register in Hreg.
    destruct (existsb _ _) eqn:Hexists;
      [|by destruct (hashable_uri uri)].
    apply existsb_exists in Hexists as (earlier & Hin & Hdup).
    exists earlier, uri. split; [done|]. left.
    split; [by apply list_elem_of_In|apply list_elem_of_here].
  - apply register_raises in Hreg as (_ & Hhash & _).
    by rewrite hashable_uri_std in Hhash.
Qed.

(** *** The properties at concrete routers *)

Lemma validate_segment_count_witness :
  validate router_users "/users/0042" = Returned (Some MockEndpoint)
  ∧ ∃ uri, get uri (uri2endpoint router_users) = Some MockEndpoint
           ∧ length uri = length (segments "/users/0042").
Proof.
  split; [reflexivity|].
  apply (validate_segment_count router_users "/users/0042" MockEndpoint).
  reflexivity.
Defined.

Lemma exact_resolution_is_stable_witness :
  get (as_key (segments "/about")) (uri2endpoint router_users)
  = Some OtherEndpoint
  ∧ validate
      (foldl after router_users
         [Register [Flexible AnyStringLocation] MockEndpoint;
          Validate "/about";
          Register [Literal "about"] MockEndpoint])
      "/about" = Returned (Some OtherEndpoint).
Proof.
  split; [reflexivity|].
  apply (exact_resolution_is_stable router_users
           [Register [Flexible AnyStringLocation] MockEndpoint;
            Validate "/about";
            Register [Literal "about"] MockEndpoint]
           "/about" OtherEndpoint).
  reflexivity.
Defined.

Lemma register_then_validate_witness :
  register (init (F:=StdLocation) (Endpoint:=Handler))
    (as_key ["users"; "all"]) MockEndpoint
  = (Returns, registered [(as_key ["users"; "all"], MockEndpoint)])
  ∧ ["users"; "all"] ≠ []
  ∧ (∀ literal, literal ∈ ["users"; "all"] → occurs "/" literal = false)
  ∧ validate (registered [(as_key ["users"; "all"], MockEndpoint)])
      "/users/all" = Returned (Some MockEndpoint).
Proof.
  assert (∀ literal, literal ∈ ["users"; "all"] → occurs "/" literal = false)
    as Hliterals.
  { apply Forall_forall. by repeat constructor. }
  split_and!; [reflexivity|done|done|].
  apply (register_then_validate init ["users"; "all"] MockEndpoint);
    [reflexivity|done|done].
Defined.

Lemma register_then_resolution_witness :
  register router_x [Literal "a"; Literal "b"] OtherEndpoint
  = (Returns,
     registered [([Literal "x"; Flexible AnyStringLocation], MockEndpoint);
                 ([Literal "a"; Literal "b"], OtherEndpoint)])
  ∧ validate router_x "/a/b" = Returned (Some MockEndpoint)
  ∧ validate
      (registered [([Literal "x"; Flexible AnyStringLocation], MockEndpoint);
                   ([Literal "a"; Literal "b"], OtherEndpoint)])
      "/a/b" = Returned (Some OtherEndpoint).
Proof.
  split_and!; [reflexivity..|].
  apply (register_then_resolution router_x [Literal "a"; Literal "b"]
           OtherEndpoint _ "/a/b" MockEndpoint); reflexivity.
Defined.

Lemma search_uris_after_register_witness :
  register router_x [Literal "a"; Literal "b"] OtherEndpoint
  = (Returns,
     registered [([Literal "x"; Flexible AnyStringLocation], MockEndpoint);
                 ([Literal "a"; Literal "b"], OtherEndpoint)])
  ∧ search_uris
      (registered [([Literal "x"; Flexible AnyStringLocation], MockEndpoint);
                   ([Literal "a"; Literal "b"], OtherEndpoint)])
      OtherEndpoint
    = search_uris router_x OtherEndpoint ++ [[Literal "a"; Literal "b"]].
Proof.
  split; [reflexivity|].
  exact (search_uris_after_register router_x [Literal "a"; Literal "b"]
           OtherEndpoint
           (registered
              [([Literal "x"; Flexible AnyStringLocation], MockEndpoint);
               ([Literal "a"; Literal "b"], OtherEndpoint)])
           eq_refl OtherEndpoint).
Defined.

Lemma validate_by_scan_witness :
  get (as_key (segments "/users/0042")) (uri2endpoint router_users) = None
  ∧ validate router_users "/users/0042" = Returned (Some MockEndpoint)
  ∧ ∃ before flexible after,
      uris_flexible router_users = before ++ flexible :: after
      ∧ get flexible (uri2endpoint router_users) = Some MockEndpoint
      ∧ length flexible = length (segments "/users/0042")
      ∧ (∀ segment f,
           (segment, Flexible f) ∈ zip (segments "/users/0042") flexible →
           is_valid f segment = true)
      ∧ ∀ earlier, earlier ∈ before →
                   stops_at (segments "/users/0042") earlier = false.
Proof.
  split_and!; [reflexivity..|].
  apply (validate_by_scan router_users "/users/0042" MockEndpoint);
    reflexivity.
Defined.

Lemma flexible_list_of_keys_witness :
  reachable_unbroken router_users
  ∧ uris_flexible router_users
    = filter (λ uri, is_flexible_uri uri = true)
        (keys (uri2endpoint router_users)).
Proof.
  split; [apply unbroken_registered|].
  apply (flexible_list_of_keys router_users), unbroken_registered.
Defined.

Lemma keys_not_duplicated_witness :
  reachable router_users
  ∧ 0 < 1
  ∧ keys (uri2endpoint router_users) !! 0
    = Some [Literal "users"; Flexible (AsciiDigitLocation 4)]
  ∧ keys (uri2endpoint router_users) !! 1 = Some [Literal "about"]
  ∧ is_duplicated_uri [Literal "users"; Flexible (AsciiDigitLocation 4)]
      [Literal "about"] = false.
Proof.
  split_and!; [apply reachable_registered|lia|reflexivity..|].
  apply (keys_not_duplicated router_users (reachable_registered _) 0 1);
    [lia|reflexivity..].
Defined.

End RouterMore.

(** ** The decorators of bamboo.sticky.http *)

Module HttpFacts.
Import Py Http PyFacts RouterMore.

(** *** Counting the separator *)

Lemma length_split sep s : length (split sep s) = S (count sep s).
Proof.
  induction s as [|c s IH]; simpl; [done|].
  destruct (Ascii.eqb c sep); simpl; [by rewrite IH|].
  pose proof (split_nonempty sep s) as Hne.
  destruct (split sep s) as [|hd tl]; [done|]. by rewrite <- IH.
Qed.

Lemma count_append c s1 s2 : count c (s1 +:+ s2) = count c s1 + count c s2.
Proof. induction s1 as [|c' s1 IH]; simpl; [done|]. rewrite IH. lia. Qed.

Lemma count_occurs c s : occurs c s = true → 0 < count c s.
Proof.
  induction s as [|c' s IH]; simpl; [done|].
  destruct (Ascii.eqb c' c); simpl; [lia|]. apply IH.
Qed.

(** *** The [Authorization] header *)

Section Auth.
Import AuthSchemeConfig.

(** X8: [_validate_auth_header] returns credentials exactly for a value made
    of the scheme, one space and the credentials, where neither holds a
    space: a value with no space, with two spaces or more, or with another
    scheme (in another case, too) gives [None]; empty credentials after the
    space are returned as they are. *)
Theorem validate_auth_header_credentials value scheme credentials :
  _validate_auth_header value scheme = Some credentials
  ↔ value = scheme +:+ " " +:+ credentials
    ∧ occurs " " scheme = false
    ∧ occurs " " credentials = false.
Proof.
  unfold _validate_auth_header. split.
  - destruct (split " " value) as [|s [|c [|? ?]]] eqn:Hsplit; try done.
    case_bool_decide as Hs; simpl; [|done]. intros [= ->]. subst s.
    split_and!.
    + by rewrite <- (join_split " " value), Hsplit.
    + apply (split_no_separator " " value). rewrite Hsplit.
      apply list_elem_of_here.
    + apply (split_no_separator " " value). rewrite Hsplit.
      apply list_elem_of_further, list_elem_of_here.
  - intros (-> & Hscheme & Hcredentials).
    change (scheme +:+ " " +:+ credentials)
      with (join " " [scheme; credentials]).
    rewrite split_join; [|done|].
    + by rewrite bool_decide_eq_true_2.
    + intros part Hin. apply elem_of_cons in Hin as [->|Hin]; [done|].
      by apply list_elem_of_singleton in Hin as ->.
Qed.

Variable basic : string.
Variable decode2binary_decode : string → option string.

(** X9: the callback behind [basic_auth] is called with a user and a
    password exactly when the header gives credentials for the scheme and
    their decoding is the user, one colon and the password, neither of
    which holds a colon. *)
Theorem basic_auth_calls val user_id pw :
  decorate_wsgi_basic basic decode2binary_decode val = Calls user_id pw
  ↔ ∃ credentials,
      _validate_auth_header val basic = Some credentials
      ∧ decode2binary_decode credentials = Some (user_id +:+ ":" +:+ pw)
      ∧ occurs ":" user_id = false
      ∧ occurs ":" pw = false.
Proof.
  unfold decorate_wsgi_basic. split.
  - destruct (_validate_auth_header val basic) as [credentials|]; [|done].
    destruct (decode2binary_decode credentials) as [decoded|] eqn:Hdecode;
      [|done].
    destruct (split ":" decoded) as [|u [|p [|? ?]]] eqn:Hsplit; try done.
    intros [= -> ->]. exists credentials. split_and!; [done| | |].
    + rewrite Hdecode. f_equal.
      by rewrite <- (join_split ":" decoded), Hsplit.
    + apply (split_no_separator ":" decoded). rewrite Hsplit.
      apply list_elem_of_here.
    + apply (split_no_separator ":" decoded). rewrite Hsplit.
      apply list_elem_of_further, list_elem_of_here.
  - intros (credentials & -> & -> & Huser & Hpw).
    change (user_id +:+ ":" +:+ pw) with (join ":" [user_id; pw]).
    rewrite split_join; [done..|].
    intros part Hin. apply elem_of_cons in Hin as [->|Hin]; [done|].
    by apply list_elem_of_singleton in Hin as ->.
Qed.

(** X10: a password that holds a colon is refused: when the decoding of the
    credentials is a user, a colon and a password in which a colon occurs,
    the callback behind [basic_auth] raises [err]. *)
Theorem basic_auth_colon_in_password val credentials user_id pw :
  _validate_auth_header val basic = Some credentials →
  decode2binary_decode credentials = Some (user_id +:+ ":" +:+ pw) →
  occurs ":" pw = true →
  decorate_wsgi_basic basic decode2binary_decode val = RaisesErr.
Proof.
  intros Hheader Hdecode Hcolon. unfold decorate_wsgi_basic.
  rewrite Hheader, Hdecode.
  pose proof (length_split ":" (user_id +:+ ":" +:+ pw)) as Hlen.
  rewrite !count_append in Hlen. simpl in Hlen.
  apply (count_occurs ":") in Hcolon.
  destruct (split ":" (user_id +:+ ":" +:+ pw)) as [|u [|p [|? ?]]];
    simpl in Hlen; try done.
  lia.
Qed.

End Auth.

Lemma basic_auth_colon_in_password_witness :
  AuthSchemeConfig._validate_auth_header "Basic user:pass:word" "Basic"
  = Some "user:pass:word"
  ∧ Some "user:pass:word" = Some ("user" +:+ ":" +:+ "pass:word")
  ∧ occurs ":" "pass:word" = true
  ∧ AuthSchemeConfig.decorate_wsgi_basic "Basic" Some "Basic user:pass:word"
    = AuthSchemeConfig.RaisesErr.
Proof.
  split_and!; [reflexivity..|].
  apply (basic_auth_colon_in_password "Basic" Some "Basic user:pass:word"
           "user:pass:word" "user" "pass:word"); reflexivity.
Defined.

(** *** The restriction of clients *)

Section Clients.
Import RestrictedClientsConfig.
Variable is_valid_ipv4 : string → bool.
Implicit Types (registered : _RestrictedClient_t) (client : ClientInfo).

Lemma verdict_calls (b : bool) :
  (if negb b then RaisesErr else CallsCallback) = CallsCallback ↔ b = true.
Proof. by destruct b. Qed.

Lemma set_cons registered c clients :
  set is_valid_ipv4 registered (c :: clients)
  = if negb (is_valid_ipv4 (ip c)) then (Raises ValueError, registered)
    else set is_valid_ipv4
           (alter (λ ports, ports ∪ {[port c]}) (registered_ip c)
              (match registered !! registered_ip c with
               | None => <[registered_ip c := ∅]> registered
               | Some _ => registered
               end))
           clients.
Proof.
  simpl. unfold registered_ip.
  destruct (is_valid_ipv4 (ip c)); simpl; [|done].
  by destruct (bool_decide (ip c = "localhost")).
Qed.

(** Registering one client adds its port to those of its address. *)
Lemma callback_after_add registered address (p : option Z) client :
  _callback
    (alter (λ ports, ports ∪ {[p]}) address
       (match registered !! address with
        | None => <[address := ∅]> registered
        | Some _ => registered
        end))
    client = CallsCallback
  ↔ _callback registered client = CallsCallback
    ∨ (address = ip client ∧ (p = None ∨ p = port client)).
Proof.
  unfold _callback.
  destruct (decide (address = ip client)) as [->|Hne].
  - destruct (registered !! ip client) as [ports|] eqn:Hports.
    + rewrite lookup_alter_eq, Hports. simpl.
      rewrite !verdict_calls, !orb_true_iff, !bool_decide_eq_true.
      rewrite !elem_of_union, !elem_of_singleton. split.
      * intros [[?|Hp]|[?|Hp]].
        -- by left; left.
        -- right. split; [done|]. by left.
        -- by left; right.
        -- right. split; [done|]. by right.
      * intros [[?|?]|[_ [Hp|Hp]]].
        -- by left; left.
        -- by right; left.
        -- by left; right.
        -- by right; right.
    + rewrite lookup_alter_eq, lookup_insert_eq. simpl.
      rewrite verdict_calls, orb_true_iff, !bool_decide_eq_true.
      rewrite !elem_of_union, !elem_of_singleton. split.
      * intros [[Hin|Hp]|[Hin|Hp]];
          try (by apply not_elem_of_empty in Hin); right.
        -- split; [done|]. by left.
        -- split; [done|]. by right.
      * intros [?|[_ [Hp|Hp]]]; [done| |].
        -- by left; right.
        -- by right; right.
  - rewrite lookup_alter_ne by done.
    assert ((match registered !! address with
             | None => <[address := ∅]> registered
             | Some _ => registered
             end) !! ip client = registered !! ip client) as ->.
    { destruct (registered !! address); [done|].
      by rewrite lookup_insert_ne. }
    split; [by left|]. by intros [?|[? _]].
Qed.

(** X11: when [set] returns, the decorated callback is called for a client
    exactly if it was before the registration, or one of the clients
    registered has its address (with ["localhost"] standing for
    ["127.0.0.1"]) and either no port or its port. *)
Theorem set_accepts registered clients registered' client :
  set is_valid_ipv4 registered clients = (Returns, registered') →
  _callback registered' client = CallsCallback
  ↔ _callback registered client = CallsCallback
    ∨ ∃ c, c ∈ clients
           ∧ registered_ip c = ip client
           ∧ (port c = None ∨ port c = port client).
Proof.
  revert registered.
  induction clients as [|c clients IH]; intros registered.
  - intros [= <-]. split; [by left|].
    intros [?|(c & Hin & _)]; [done|]. by apply elem_of_nil in Hin.
  - rewrite set_cons.
    destruct (is_valid_ipv4 (ip c)); simpl; [|done].
    intros Hset. rewrite (IH _ Hset), callback_after_add. split.
    + intros [[?|[? ?]]|(c' & Hin & ?)]; [by left|right..].
      * exists c. split; [apply list_elem_of_here|done].
      * exists c'. split; [by apply list_elem_of_further|done].
    + intros [?|(c' & Hin & Hip & Hport)]; [by left; left|].
      apply elem_of_cons in Hin as [->|Hin].
      * by left; right.
      * right. by exists c'.
Qed.

(** X12: [set] is not atomic: when an address is invalid it raises
    [ValueError], and the clients listed before that one, once their
    addresses are valid, stay registered. *)
Theorem set_raises_midway registered before invalid after :
  (∀ c, c ∈ before → is_valid_ipv4 (ip c) = true) →
  is_valid_ipv4 (ip invalid) = false →
  ∃ registered',
    set is_valid_ipv4 registered before = (Returns, registered')
    ∧ set is_valid_ipv4 registered (before ++ invalid :: after)
      = (Raises ValueError, registered').
Proof.
  intros Hbefore Hinvalid. revert registered.
  induction before as [|c before IH]; intros registered.
  - exists registered. split; [done|].
    rewrite app_nil_l, set_cons. by rewrite Hinvalid.
  - rewrite <- app_comm_cons, !set_cons.
    rewrite (Hbefore c) by apply list_elem_of_here. simpl.
    apply IH. intros c' Hin. by apply Hbefore, list_elem_of_further.
Qed.

(** X13: [set] never revokes: a client for which the decorated callback was
    called before is one for which it is called after, whether [set]
    returns or raises. *)
Theorem set_keeps_accepted registered clients client :
  _callback registered client = CallsCallback →
  _callback (set is_valid_ipv4 registered clients).2 client = CallsCallback.
Proof.
  revert registered.
  induction clients as [|c clients IH]; intros registered Hcalls; [done|].
  rewrite set_cons.
  destruct (is_valid_ipv4 (ip c)); simpl; [|done].
  apply IH, callback_after_add. by left.
Qed.

End Clients.

(** *** The headers of a preflight request *)

Lemma split_comma_space first others :
  occurs "," first = false →
  (∀ header, header ∈ others → occurs "," header = false) →
  split "," (str_join ", " (first :: others))
  = first :: (String " " <$> others).
Proof.
  revert first.
  induction others as [|next others IH]; intros first Hfirst Hothers.
  - simpl. by apply split_without_separator.
  - change (str_join ", " (first :: next :: others))
      with (first +:+ String "," (String " " (str_join ", " (next :: others)))).
    rewrite split_append by done. f_equal.
    change (split "," (String " " (str_join ", " (next :: others))))
      with (match split "," (str_join ", " (next :: others)) with
            | hd :: tl => String " " hd :: tl
            | [] => [String " " EmptyString]
            end).
    rewrite IH; [done| |].
    + apply Hothers, list_elem_of_here.
    + intros header Hin. by apply Hothers, list_elem_of_further.
Qed.

(** X14: of the headers a preflight request lists with a comma and a space
    between them, only the first can be accepted: the others are looked up
    with the space in front, so that, when no allowed name begins with a
    space, the accepted headers are the first one if it is allowed or
    safelisted, and none otherwise. *)
Theorem accepted_headers_comma_space allow_headers first others :
  occurs "," first = false →
  (∀ header, header ∈ others → occurs "," header = false) →
  (∀ name, String " " name ∉ allow_headers) →
  accepted_headers allow_headers (str_join ", " (first :: others))
  = if decide (first ∈ allow_headers ∪ _CORS_SAFELISTED_REQUEST_HEADERS)
    then first else "".
Proof.
  intros Hfirst Hothers Hallow. unfold accepted_headers.
  rewrite split_comma_space, filter_cons by done.
  assert (filter (λ header,
                    header ∈ allow_headers ∪ _CORS_SAFELISTED_REQUEST_HEADERS)
            (String " " <$> others) = []) as ->.
  { clear Hothers. induction others as [|next others IH]; [done|].
    csimpl. rewrite filter_cons, IH. rewrite decide_False; [done|].
    unfold _CORS_SAFELISTED_REQUEST_HEADERS.
    rewrite !elem_of_union, !elem_of_singleton.
    intros [Hin|[[[?|?]|?]|?]]; [by apply (Hallow next)|done..]. }
  by case_decide.
Qed.

Lemma set_accepts_witness :
  RestrictedClientsConfig.set RestrictedClientsConfig.is_known_ipv4 ∅
    [{| ip := "localhost"; port := None |};
     {| ip := "192.168.0.10"; port := Some 8000%Z |}]
  = (Returns,
     (RestrictedClientsConfig.set RestrictedClientsConfig.is_known_ipv4 ∅
        [{| ip := "localhost"; port := None |};
         {| ip := "192.168.0.10"; port := Some 8000%Z |}]).2)
  ∧ (RestrictedClientsConfig._callback
       (RestrictedClientsConfig.set RestrictedClientsConfig.is_known_ipv4 ∅
          [{| ip := "localhost"; port := None |};
           {| ip := "192.168.0.10"; port := Some 8000%Z |}]).2
       {| ip := "127.0.0.1"; port := Some 51234%Z |}
     = RestrictedClientsConfig.CallsCallback
     ↔ RestrictedClientsConfig._callback ∅
         {| ip := "127.0.0.1"; port := Some 51234%Z |}
       = RestrictedClientsConfig.CallsCallback
       ∨ ∃ c, c ∈ [{| ip := "localhost"; port := None |};
                   {| ip := "192.168.0.10"; port := Some 8000%Z |}]
              ∧ RestrictedClientsConfig.registered_ip c = "127.0.0.1"
              ∧ (port c = None ∨ port c = Some 51234%Z)).
Proof.
  assert (RestrictedClientsConfig.set RestrictedClientsConfig.is_known_ipv4 ∅
            [{| ip := "localhost"; port := None |};
             {| ip := "192.168.0.10"; port := Some 8000%Z |}]
          = (Returns,
             (RestrictedClientsConfig.set
                RestrictedClientsConfig.is_known_ipv4 ∅
                [{| ip := "localhost"; port := None |};
                 {| ip := "192.168.0.10"; port := Some 8000%Z |}]).2))
    as Hset.
  { vm_compute. reflexivity. }
  split; [exact Hset|].
  exact (set_accepts RestrictedClientsConfig.is_known_ipv4 ∅ _ _
           {| ip := "127.0.0.1"; port := Some 51234%Z |} Hset).
Defined.

Lemma set_raises_midway_witness :
  (∀ c, c ∈ [{| ip := "localhost"; port := None |}] →
        RestrictedClientsConfig.is_known_ipv4 (ip c) = true)
  ∧ RestrictedClientsConfig.is_known_ipv4 "10.0.0.300" = false
  ∧ ∃ registered',
      RestrictedClientsConfig.set RestrictedClientsConfig.is_known_ipv4 ∅
        [{| ip := "localhost"; port := None |}]
      = (Returns, registered')
      ∧ RestrictedClientsConfig.set RestrictedClientsConfig.is_known_ipv4 ∅
          ([{| ip := "localhost"; port := None |}]
           ++ {| ip := "10.0.0.300"; port := None |} :: [])
        = (Raises RestrictedClientsConfig.ValueError, registered').
Proof.
  assert (∀ c, c ∈ [{| ip := "localhost"; port := None |}] →
               RestrictedClientsConfig.is_known_ipv4 (ip c) = true) as Hvalid.
  { apply Forall_forall. by repeat constructor. }
  split_and!; [done|reflexivity|].
  exact (set_raises_midway RestrictedClientsConfig.is_known_ipv4 ∅
           [{| ip := "localhost"; port := None |}]
           {| ip := "10.0.0.300"; port := None |} [] Hvalid eq_refl).
Defined.

Lemma set_keeps_accepted_witness :
  RestrictedClientsConfig._callback
    {[ "127.0.0.1" := {[ None ]} ]}
    {| ip := "127.0.0.1"; port := Some 51234%Z |}
  = RestrictedClientsConfig.CallsCallback
  ∧ RestrictedClientsConfig._callback
      (RestrictedClientsConfig.set RestrictedClientsConfig.is_known_ipv4
         {[ "127.0.0.1" := {[ None ]} ]}
         [{| ip := "127.0.0.1"; port := Some 80%Z |};
          {| ip := "10.0.0.300"; port := None |}]).2
      {| ip := "127.0.0.1"; port := Some 51234%Z |}
    = RestrictedClientsConfig.CallsCallback.
Proof.
  assert (RestrictedClientsConfig._callback
            {[ "127.0.0.1" := {[ None ]} ]}
            {| ip := "127.0.0.1"; port := Some 51234%Z |}
          = RestrictedClientsConfig.CallsCallback) as Hbefore.
  { vm_compute. reflexivity. }
  split; [exact Hbefore|].
  exact (set_keeps_accepted RestrictedClientsConfig.is_known_ipv4 _
           [{| ip := "127.0.0.1"; port := Some 80%Z |};
            {| ip := "10.0.0.300"; port := None |}] _ Hbefore).
Defined.

Lemma accepted_headers_comma_space_witness :
  occurs "," "X-Token" = false
  ∧ (∀ header, header ∈ ["X-Trace"] → occurs "," header = false)
  ∧ (∀ name, String " " name ∉ ({[ "X-Token"; "X-Trace" ]} : gset string))
  ∧ accepted_headers {[ "X-Token"; "X-Trace" ]} "X-Token, X-Trace"
    = "X-Token".
Proof.
  assert (∀ header, header ∈ ["X-Trace"] → occurs "," header = false)
    as Hothers.
  { apply Forall_forall. by repeat constructor. }
  assert (∀ name, String " " name ∉ ({[ "X-Token"; "X-Trace" ]} : gset string))
    as Hallow.
  { intros name. rewrite elem_of_union, !elem_of_singleton. by intros [?|?]. }
  split_and!; [reflexivity|done|done|].
  pose proof (accepted_headers_comma_space {[ "X-Token"; "X-Trace" ]}
                "X-Token" ["X-Trace"] eq_refl Hothers Hallow) as Haccepted.
  rewrite decide_True in Haccepted; [exact Haccepted|].
  rewrite !elem_of_union, !elem_of_singleton. by left; left.
Defined.

End HttpFacts.
